(** * Sulfuric: the route table, the wire parser, the response writer and
      the flat-file table store of [main.py], embedded in Rocq.

    Python [str] values are modelled as [string]: a sequence of characters
    whose code points are below 256.  [bytes] values are modelled as
    [list ascii].  A Python [dict] whose order is observable (the header
    mapping, a table's index) is an association list with unique keys in
    insertion order; the store's table of tables is a [gmap].  The calls
    are modelled one after the other: the lock of the store, the
    scheduling of the connection tasks and [Server.listen] are not part of
    the model.

    The files of the store are a map from the path strings that the code
    computes to the text of the files.  A call of the store that the model
    completes stands for a call that returns; where the file system makes
    the call raise (a missing directory, a directory in the place of a
    file, a name that the system refuses) the model has no counterpart,
    and the theorems about the store speak of calls that return.  Two
    path strings are two files of the model: the theorems that depend on
    which file a path names take table names that are one path component
    and keys without slash, for which this is so.

    The file has two parts: the definitions that embed the code, and then
    the lemmas and theorems about them. *)

From Stdlib Require Import ZArith Ascii String DecimalString DecimalFacts
  DecimalPos.
From stdpp Require Import gmap strings list.

Open Scope string_scope.
Open Scope list_scope.
Set Warnings "-register-all".
Set Default Proof Using "Type".

(** * Part I: the code *)

(** ** Python built-ins used by [main.py] *)

Module Py.

(** Exceptions that the modelled code can raise. *)
Inductive exn : Set :=
  | KeyError
  | FileNotFoundError
  | IsADirectoryError
  | PermissionError
  | AttributeError
  | JSONDecodeError
  | ReError.

(** The outcome of a call: a value, or a raised exception. *)
Inductive res (A : Type) : Type :=
  | Ok (a : A)
  | Raise (e : exn).
Arguments Ok {A} a.
Arguments Raise {A} e.

#[global] Instance res_ret : MRet res := fun A a => Ok a.
#[global] Instance res_bind : MBind res := fun A B k m =>
  match m with
  | Ok a => k a
  | Raise e => Raise e
  end.

(** [s.startswith(p)] *)
Fixpoint startswith (p s : string) : bool :=
  match p with
  | EmptyString => true
  | String a p' =>
      match s with
      | EmptyString => false
      | String b s' => if Ascii.eqb a b then startswith p' s' else false
      end
  end.

(** [s[n:]] *)
Fixpoint str_drop (n : nat) (s : string) : string :=
  match n with
  | O => s
  | S n' =>
      match s with
      | EmptyString => ""
      | String _ s' => str_drop n' s'
      end
  end.

(** [s.endswith("/")] *)
Fixpoint endswith_slash (s : string) : bool :=
  match s with
  | EmptyString => false
  | String c EmptyString => Ascii.eqb c "/"
  | String _ s' => endswith_slash s'
  end.

(** Truthiness of a [str]: the empty string is falsy. *)
Definition truthy (s : string) : bool :=
  match s with
  | EmptyString => false
  | String _ _ => true
  end.

(** [os.path.join(a, b)] of [posixpath]: an absolute [b] replaces [a]. *)
Definition path_join (a b : string) : string :=
  if startswith "/" b then b
  else if negb (truthy a) || endswith_slash a then a +:+ b
  else a +:+ "/" +:+ b.

(** [sep.join(l)] *)
Fixpoint join (sep : string) (l : list string) : string :=
  match l with
  | [] => ""
  | [x] => x
  | x :: l' => x +:+ sep +:+ join sep l'
  end.

(** [str(n)] of an [int]. *)
Definition str_of_int (n : Z) : string :=
  NilZero.string_of_int (Z.to_int n).

(** *** Ordered dictionaries with [str] keys *)

Section Dict.
Context {V : Type}.

Definition dict := list (string * V).

(** [d.get(k)] *)
Fixpoint dict_get (k : string) (d : dict) : option V :=
  match d with
  | [] => None
  | (k', v) :: d' => if String.eqb k k' then Some v else dict_get k d'
  end.

(** [d[k] = v]: an existing key keeps its position. *)
Fixpoint dict_set (k : string) (v : V) (d : dict) : dict :=
  match d with
  | [] => [(k, v)]
  | (k', v') :: d' =>
      if String.eqb k k' then (k, v) :: d' else (k', v') :: dict_set k v d'
  end.

(** [d] without its entry for [k]; [d] itself when [k] is not a key. *)
Fixpoint dict_remove (k : string) (d : dict) : dict :=
  match d with
  | [] => []
  | (k', v') :: d' =>
      if String.eqb k k' then dict_remove k d'
      else (k', v') :: dict_remove k d'
  end.

(** [d.pop(k, None)]: the popped value and the dictionary left. *)
Definition dict_pop (k : string) (d : dict) : option V * dict :=
  (dict_get k d, dict_remove k d).

(** [list(d.keys())] *)
Definition dict_keys (d : dict) : list string := map fst d.

End Dict.
Arguments dict V : clear implicits.

End Py.

Import Py.

(** ** JSON values and Python's [json] module *)

Module Json.

(** A JSON document, as the Python value that [json] reads and writes.
    [JNum] is an [int].  [JFloat] is a finite [float], given by the text
    that [repr] writes for it (a [float] and its [repr] determine each
    other). *)
Inductive json : Type :=
  | JNull
  | JBool (b : bool)
  | JNum (n : Z)
  | JFloat (repr : string)
  | JStr (s : string)
  | JArr (l : list json)
  | JObj (l : list (string * json)).

(** [json.dump] / [json.dumps] and [json.load] / [json.loads] of the
    standard library, as the code sees them: a printer, and a reader that
    gives [None] where Python raises [JSONDecodeError]. *)
Class Codec : Type := {
  json_dump : json -> string;
  json_load : string -> option json
}.

(** *** [json.dumps] with its default settings *)

Definition hex_digit (n : N) : ascii :=
  if (n <? 10)%N then ascii_of_N (48 + n) else ascii_of_N (87 + n).

(** The escape of one character inside a string literal, as
    [json.dumps] writes it with [ensure_ascii=True]. *)
Definition escape_char (c : ascii) : string :=
  let n := N_of_ascii c in
  if (n =? 34)%N then "\" +:+ String c ""
  else if (n =? 92)%N then "\\"
  else if (n =? 10)%N then "\n"
  else if (n =? 13)%N then "\r"
  else if (n =? 9)%N then "\t"
  else if (n =? 8)%N then "\b"
  else if (n =? 12)%N then "\f"
  else if ((32 <=? n) && (n <=? 126))%N then String c ""
  else
    "\u00" +:+
    String (hex_digit (n / 16)) (String (hex_digit (n mod 16)) "").

Fixpoint escape (s : string) : string :=
  match s with
  | EmptyString => ""
  | String c s' => escape_char c +:+ escape s'
  end.

Definition quote (s : string) : string :=
  String (ascii_of_N 34) (escape s +:+ String (ascii_of_N 34) "").

(** [json.dumps(v)] with the default separators. *)
Fixpoint dumps (v : json) : string :=
  match v with
  | JNull => "null"
  | JBool true => "true"
  | JBool false => "false"
  | JNum n => str_of_int n
  | JFloat repr => repr
  | JStr s => quote s
  | JArr l => "[" +:+ join ", " (map dumps l) +:+ "]"
  | JObj l =>
      "{" +:+ join ", " (map (fun kv => quote kv.1 +:+ ": " +:+ dumps kv.2) l)
          +:+ "}"
  end.

(** *** [json.loads]; of the floats it reads those in plain notation *)

Definition is_ws (c : ascii) : bool :=
  let n := N_of_ascii c in
  ((n =? 32) || (n =? 9) || (n =? 10) || (n =? 13))%N.

Fixpoint skip_ws (s : string) : string :=
  match s with
  | String c s' => if is_ws c then skip_ws s' else s
  | EmptyString => s
  end.

Definition digit_val (c : ascii) : option N :=
  let n := N_of_ascii c in
  if ((48 <=? n) && (n <=? 57))%N then Some (n - 48)%N else None.

Definition hex_val (c : ascii) : option N :=
  let n := N_of_ascii c in
  if ((48 <=? n) && (n <=? 57))%N then Some (n - 48)%N
  else if ((97 <=? n) && (n <=? 102))%N then Some (n - 87)%N
  else if ((65 <=? n) && (n <=? 70))%N then Some (n - 55)%N
  else None.

(** The digits at the head of [s], read as a number in base ten, after
    [acc]; the rest of [s]. *)
Fixpoint read_digits (acc : N) (s : string) : N * string :=
  match s with
  | String c s' =>
      match digit_val c with
      | Some d => read_digits (10 * acc + d) s'
      | None => (acc, s)
      end
  | EmptyString => (acc, s)
  end.

Definition is_digit (c : ascii) : bool :=
  match digit_val c with Some _ => true | None => false end.

(** A character that continues a number as a fraction or an exponent. *)
Definition is_float_mark (c : ascii) : bool :=
  let n := N_of_ascii c in
  ((n =? 46) || (n =? 101) || (n =? 69))%N.

(** Zero, or a non-zero digit and further digits; with a fraction or an
    exponent after them the number is a [float], not an [int]. *)
Definition read_nat (s : string) : option (N * string) :=
  match s with
  | String c s' =>
      if Ascii.eqb c "0" then
        match s' with
        | String d _ => if is_float_mark d then None else Some (0%N, s')
        | EmptyString => Some (0%N, s')
        end
      else if is_digit c then
        let '(n, r) := read_digits 0 s in
        match r with
        | String d _ => if is_float_mark d then None else Some (n, r)
        | EmptyString => Some (n, r)
        end
      else None
  | EmptyString => None
  end.

Definition read_number (s : string) : option (Z * string) :=
  match s with
  | String c s' =>
      if Ascii.eqb c "-" then
        match read_nat s' with
        | Some (n, r) => Some ((- Z.of_N n)%Z, r)
        | None => None
        end
      else
        match read_nat s with
        | Some (n, r) => Some (Z.of_N n, r)
        | None => None
        end
  | EmptyString => None
  end.

(** The digits at the head of [s], and the rest of [s]. *)
Fixpoint take_digits (s : string) : string * string :=
  match s with
  | String c s' =>
      if is_digit c then let '(a, b) := take_digits s' in (String c a, b)
      else ("", s)
  | EmptyString => ("", "")
  end.

(** [s] is not empty and ends with the digit zero. *)
Fixpoint ends_with_zero (s : string) : bool :=
  match s with
  | EmptyString => false
  | String c EmptyString => Ascii.eqb c "0"
  | String _ s' => ends_with_zero s'
  end.

(** The literals [int.frac] that are the [repr] of the [float] they
    denote: an integer part without leading zero, a fraction without
    trailing zero (or the fraction [0]), at most 15 digits in all, and a
    value that [repr] does not write with an exponent (at least [0.0001],
    or zero). *)
Definition float_repr_parts (int frac : string) : bool :=
  truthy int && truthy frac &&
  (String.eqb int "0" || negb (startswith "0" int)) &&
  (String.eqb frac "0" || negb (ends_with_zero frac)) &&
  Nat.leb (String.length int + String.length frac) 15 &&
  (negb (String.eqb int "0") || String.eqb frac "0" ||
   negb (startswith "0000" frac)).

(** [rest] does not go on with a digit, a fraction or an exponent. *)
Definition delim (rest : string) : bool :=
  match rest with
  | EmptyString => true
  | String c _ => negb (is_digit c) && negb (is_float_mark c)
  end.

(** A number with a fraction at the head of [s]: its text, which is the
    [repr] of the [float] that [json.loads] makes of it, and the rest of
    [s].  [None] for the other numbers with a fraction or an exponent,
    which are outside the model, and where there is no such number. *)
Definition read_float_body (sign s1 : string) : option (string * string) :=
  let '(int, s2) := take_digits s1 in
  match s2 with
  | String dot s3 =>
      if Ascii.eqb dot "." then
        let '(frac, rest) := take_digits s3 in
        if float_repr_parts int frac && delim rest
        then Some (sign +:+ int +:+ "." +:+ frac, rest)
        else None
      else None
  | EmptyString => None
  end.

Definition read_float (s : string) : option (string * string) :=
  match s with
  | String c s' =>
      if Ascii.eqb c "-" then read_float_body "-" s' else read_float_body "" s
  | EmptyString => None
  end.

(** The body of a string literal after its opening quote, up to and
    without the closing quote. *)
Fixpoint read_string (fuel : nat) (s : string) : option (string * string) :=
  match fuel with
  | O => None
  | S fuel =>
      match s with
      | EmptyString => None
      | String c s' =>
          let n := N_of_ascii c in
          if (n =? 34)%N then Some ("", s')
          else if (n =? 92)%N then
            match s' with
            | String e s'' =>
                let m := N_of_ascii e in
                let simple (x : N) :=
                  match read_string fuel s'' with
                  | Some (t, r) => Some (String (ascii_of_N x) t, r)
                  | None => None
                  end in
                if (m =? 34)%N then simple 34%N
                else if (m =? 92)%N then simple 92%N
                else if (m =? 47)%N then simple 47%N
                else if (m =? 98)%N then simple 8%N
                else if (m =? 102)%N then simple 12%N
                else if (m =? 110)%N then simple 10%N
                else if (m =? 114)%N then simple 13%N
                else if (m =? 116)%N then simple 9%N
                else if (m =? 117)%N then
                  match s'' with
                  | String h1 (String h2 (String h3 (String h4 s3))) =>
                      match hex_val h1, hex_val h2, hex_val h3, hex_val h4 with
                      | Some 0%N, Some 0%N, Some a, Some b =>
                          match read_string fuel s3 with
                          | Some (t, r) =>
                              Some (String (ascii_of_N (16 * a + b)) t, r)
                          | None => None
                          end
                      | _, _, _, _ => None
                      end
                  | _ => None
                  end
                else None
            | EmptyString => None
            end
          else if (n <? 32)%N then None
          else
            match read_string fuel s' with
            | Some (t, r) => Some (String c t, r)
            | None => None
            end
      end
  end.

Definition expect (lit : string) (v : json) (s : string)
  : option (json * string) :=
  if startswith lit s
  then Some (v, str_drop (String.length lit) s)
  else None.

(** One value at the head of [s], after white space; the rest of [s]. *)
Fixpoint read_value (fuel : nat) (s : string) : option (json * string) :=
  match fuel with
  | O => None
  | S fuel =>
      match skip_ws s with
      | EmptyString => None
      | String c s' as s0 =>
          let n := N_of_ascii c in
          if (n =? 110)%N then expect "null" JNull s0
          else if (n =? 116)%N then expect "true" (JBool true) s0
          else if (n =? 102)%N then expect "false" (JBool false) s0
          else if (n =? 34)%N then
            match read_string (S (String.length s')) s' with
            | Some (t, r) => Some (JStr t, r)
            | None => None
            end
          else if (n =? 91)%N then
            match skip_ws s' with
            | String d r =>
                if (N_of_ascii d =? 93)%N then Some (JArr [], r)
                else read_elems fuel [] s'
            | EmptyString => None
            end
          else if (n =? 123)%N then
            match skip_ws s' with
            | String d r =>
                if (N_of_ascii d =? 125)%N then Some (JObj [], r)
                else read_members fuel [] s'
            | EmptyString => None
            end
          else
            match read_number s0 with
            | Some (z, r) => Some (JNum z, r)
            | None =>
                match read_float s0 with
                | Some (repr, r) => Some (JFloat repr, r)
                | None => None
                end
            end
      end
  end
with read_elems (fuel : nat) (acc : list json) (s : string)
  : option (json * string) :=
  match fuel with
  | O => None
  | S fuel =>
      match read_value fuel s with
      | Some (v, r) =>
          match skip_ws r with
          | String d r' =>
              if (N_of_ascii d =? 44)%N then read_elems fuel (acc ++ [v]) r'
              else if (N_of_ascii d =? 93)%N then Some (JArr (acc ++ [v]), r')
              else None
          | EmptyString => None
          end
      | None => None
      end
  end
with read_members (fuel : nat) (acc : dict json) (s : string)
  : option (json * string) :=
  match fuel with
  | O => None
  | S fuel =>
      match skip_ws s with
      | String q s1 =>
          if (N_of_ascii q =? 34)%N then
            match read_string (S (String.length s1)) s1 with
            | Some (k, r) =>
                match skip_ws r with
                | String colon r1 =>
                    if (N_of_ascii colon =? 58)%N then
                      match read_value fuel r1 with
                      | Some (v, r2) =>
                          match skip_ws r2 with
                          | String d r3 =>
                              if (N_of_ascii d =? 44)%N
                              then read_members fuel (dict_set k v acc) r3
                              else if (N_of_ascii d =? 125)%N
                              then Some (JObj (dict_set k v acc), r3)
                              else None
                          | EmptyString => None
                          end
                      | None => None
                      end
                    else None
                | EmptyString => None
                end
            | None => None
            end
          else None
      | EmptyString => None
      end
  end.

(** [json.loads(s)]: one value, then only white space. *)
Definition loads (s : string) : option json :=
  match read_value (2 * String.length s + 2) s with
  | Some (v, r) =>
      match skip_ws r with
      | EmptyString => Some v
      | String _ _ => None
      end
  | None => None
  end.

(** A dictionary has each key once. *)
Fixpoint unique_keys {V : Type} (d : dict V) : bool :=
  match d with
  | [] => true
  | (k, _) :: d' =>
      match dict_get k d' with
      | Some _ => false
      | None => unique_keys d'
      end
  end.

(** [s1] is the text [int.frac] of such a literal, without its sign. *)
Definition float_body (s1 : string) (int frac : string) : Prop :=
  exists s3,
    take_digits s1 = (int, String "." s3) /\
    take_digits s3 = (frac, "") /\
    float_repr_parts int frac = true.

(** [repr] is the [repr] of a [float] in plain notation:
    [int.frac] as above, with or without a sign. *)
Definition float_repr_ok (repr : string) : bool :=
  match read_float repr with
  | Some (text, EmptyString) => String.eqb text repr
  | _ => false
  end.

(** The values of the model that a Python program builds: the keys of an
    object are distinct, and a [float] is one that [repr] writes in plain
    notation with at most 15 digits. *)
Fixpoint json_wf (v : json) : bool :=
  match v with
  | JFloat repr => float_repr_ok repr
  | JArr l => forallb json_wf l
  | JObj l => unique_keys l && forallb (fun kv => json_wf kv.2) l
  | _ => true
  end.

(** A bound on the depth of the calls of [read_value] on the dump of
    [v]. *)
Fixpoint json_size (v : json) : nat :=
  match v with
  | JArr l => S (list_sum (map (fun x => S (json_size x)) l))
  | JObj l => S (list_sum (map (fun kv => S (json_size kv.2)) l))
  | _ => 1
  end.

(** The value of the digits [d] after the value [acc]. *)
Fixpoint horner (acc : N) (d : Decimal.uint) : N :=
  match d with
  | Decimal.Nil => acc
  | Decimal.D0 l => horner (10 * acc + 0) l
  | Decimal.D1 l => horner (10 * acc + 1) l
  | Decimal.D2 l => horner (10 * acc + 2) l
  | Decimal.D3 l => horner (10 * acc + 3) l
  | Decimal.D4 l => horner (10 * acc + 4) l
  | Decimal.D5 l => horner (10 * acc + 5) l
  | Decimal.D6 l => horner (10 * acc + 6) l
  | Decimal.D7 l => horner (10 * acc + 7) l
  | Decimal.D8 l => horner (10 * acc + 8) l
  | Decimal.D9 l => horner (10 * acc + 9) l
  end.

(** The first character of a number. *)
Definition num_start (c : ascii) : bool := is_digit c || Ascii.eqb c "-".

(** The dump of a value starts with a character that is neither white
    space nor a closing bracket. *)
Definition value_start (c : ascii) : bool :=
  negb (is_ws c) && negb (N_of_ascii c =? 93)%N && negb (N_of_ascii c =? 125)%N.

(** [read_value] reads the dump of [v] and stops after it. *)
Definition reads_back (v : json) : Prop :=
  json_wf v = true ->
  forall fuel rest,
    json_size v <= fuel -> delim rest = true ->
    read_value fuel (dumps v +:+ rest) = Some (v, rest).

(** Induction on a JSON value, with the hypothesis for every element of an
    array and every value of an object. *)
Fixpoint json_induction (P : json -> Prop)
    (Hnull : P JNull) (Hbool : forall b, P (JBool b))
    (Hnum : forall n, P (JNum n)) (Hfloat : forall r, P (JFloat r))
    (Hstr : forall s, P (JStr s))
    (Harr : forall l, Forall P l -> P (JArr l))
    (Hobj : forall l, Forall (fun kv => P kv.2) l -> P (JObj l))
    (v : json) : P v :=
  let rec := json_induction P Hnull Hbool Hnum Hfloat Hstr Harr Hobj in
  match v with
  | JNull => Hnull
  | JBool b => Hbool b
  | JNum n => Hnum n
  | JFloat r => Hfloat r
  | JStr s => Hstr s
  | JArr l =>
      Harr l
        ((fix go (l : list json) : Forall P l :=
            match l with
            | [] => @List.Forall_nil _ P
            | x :: r => @List.Forall_cons _ P x r (rec x) (go r)
            end) l)
  | JObj l =>
      Hobj l
        ((fix go (l : list (string * json)) : Forall (fun kv => P kv.2) l :=
            match l with
            | [] => @List.Forall_nil _ (fun kv => P kv.2)
            | kv :: r =>
                @List.Forall_cons _ (fun kv => P kv.2) kv r (rec kv.2) (go r)
            end) l)
  end.

(** The codec made of [dumps] and [loads]. *)
Definition python_json : Codec :=
  {| json_dump := dumps; json_load := loads |}.

End Json.

Import Json.

(** ** The table store: class [Database] *)

Module Store.

Section Database.
Context {codec : Codec}.

(** A [Database] object together with the files it owns: [tables] is
    [self.tables], [disk] maps a path to the text of the regular file
    stored there.  Directories are not tracked: [os.makedirs] leaves
    [disk] as it is and opening a file for writing always succeeds, so the
    model describes the calls that complete without raising, in stores
    where no indexed path is a directory.  A path is the string that the
    code computes, not the file that the system resolves it to. *)
Record Database : Type := mkDatabase {
  base_path : string;
  tables : gmap string (dict string);
  disk : gmap string string
}.

Definition with_tables (db : Database) (t : gmap string (dict string)) :=
  mkDatabase (base_path db) t (disk db).

Definition with_disk (db : Database) (d : gmap string string) :=
  mkDatabase (base_path db) (tables db) d.

(** [os.path.join(self.base_path, table, 'index.json')] *)
Definition index_file (db : Database) (table : string) : string :=
  path_join (path_join (base_path db) table) "index.json".

(** [os.path.join(self.base_path, table, 'keys', f"{key}.json")] as [set]
    computes it. *)
Definition key_file (db : Database) (table key : string) : string :=
  let table_path := path_join (base_path db) table in
  let keys_path := path_join table_path "keys" in
  path_join keys_path (key +:+ ".json").

(** The JSON object that [json.dump] receives for an index. *)
Definition index_json (idx : dict string) : json :=
  JObj (map (fun kv => (kv.1, JStr kv.2)) idx).

(** [os.path.exists(path)], for a path that is not a directory. *)
Definition path_exists (db : Database) (path : string) : bool :=
  bool_decide (is_Some (disk db !! path)).

(** [__save_index] *)
Definition save_index (db : Database) (table : string) : res Database :=
  match tables db !! table with
  | None => Raise KeyError
  | Some idx =>
      Ok (with_disk db
            (<[index_file db table := json_dump (index_json idx)]> (disk db)))
  end.

(** [set] *)
Definition set (db : Database) (table key : string) (value : json)
  : res Database :=
  let file_path := key_file db table key in
  let db := with_disk db (<[file_path := json_dump value]> (disk db)) in
  let db :=
    match tables db !! table with
    | Some _ => db
    | None => with_tables db (<[table := []]> (tables db))
    end in
  match tables db !! table with
  | None => Raise KeyError
  | Some idx =>
      let db :=
        with_tables db (<[table := dict_set key file_path idx]> (tables db)) in
      save_index db table
  end.

(** [get]; Python's [None] is [JNull]. *)
Definition get (db : Database) (table key : string) : res json :=
  match tables db !! table with
  | None => Ok JNull
  | Some idx =>
      match dict_get key idx with
      | None => Ok JNull
      | Some file_path =>
          if negb (truthy file_path) then Ok JNull
          else
            match disk db !! file_path with
            | None => Ok JNull (* [not os.path.exists(file_path)] *)
            | Some text =>
                match json_load text with
                | Some v => Ok v
                | None => Raise JSONDecodeError
                end
            end
      end
  end.

(** [delete] *)
Definition delete (db : Database) (table key : string) : res Database :=
  match tables db !! table with
  | None => Ok db
  | Some idx =>
      let '(popped, idx') := dict_pop key idx in
      let db := with_tables db (<[table := idx']> (tables db)) in
      match popped with
      | None => Ok db
      | Some file_path =>
          if truthy file_path && path_exists db file_path
          then
            let db := with_disk db (base.delete file_path (disk db)) in
            save_index db table
          else Ok db
      end
  end.

(** [all_keys] *)
Definition all_keys (db : Database) (table : string) : list string :=
  match tables db !! table with
  | Some idx => dict_keys idx
  | None => []
  end.

(** The file [index.json] of [table] holds exactly the dump of the index
    that [self.tables] has for [table]. *)
Definition index_synced (db : Database) (table : string) : Prop :=
  exists idx,
    tables db !! table = Some idx /\
    disk db !! index_file db table = Some (json_dump (index_json idx)).

(** [self.tables[table].get(key)], [None] also for an unknown table. *)
Definition index_entry (db : Database) (table key : string)
  : option string :=
  match tables db !! table with
  | Some idx => dict_get key idx
  | None => None
  end.

(** The calls that change a store, and a sequence of them run in order. *)
Inductive op : Type :=
  | OpSet (table key : string) (value : json)
  | OpDelete (table key : string).

Definition run_op (db : Database) (o : op) : res Database :=
  match o with
  | OpSet table key value => set db table key value
  | OpDelete table key => delete db table key
  end.

Fixpoint run (db : Database) (ops : list op) : res Database :=
  match ops with
  | [] => Ok db
  | o :: ops' =>
      match run_op db o with
      | Ok db' => run db' ops'
      | Raise e => Raise e
      end
  end.

(** [o] writes [key] of [table]. *)
Definition writes (table key : string) (o : op) : Prop :=
  match o with
  | OpSet t k _ => t = table /\ k = key
  | OpDelete _ _ => False
  end.

End Database.

End Store.

(** ** The response writer, the wire parser, the router and the connection
       handler: classes [Response], [Request] and [Server] *)

Module Http.

Definition CR : ascii := ascii_of_N 13.
Definition LF : ascii := ascii_of_N 10.

(** ["\r\n"] *)
Definition crlf : string := String CR (String LF "").

(** [bytes] *)
Abbreviation bytes := (list ascii).

(** The UTF-8 encoding of one character: one byte below 128, two bytes
    from 128 to 255. *)
Definition encode_char (c : ascii) : bytes :=
  let n := N_of_ascii c in
  if (n <? 128)%N then [c]
  else [ascii_of_N (192 + n / 64); ascii_of_N (128 + n mod 64)].

(** [s.encode('utf-8')] *)
Fixpoint encode (s : string) : bytes :=
  match s with
  | EmptyString => []
  | String c s' => encode_char c ++ encode s'
  end.

(** What is done to the [StreamWriter] of a connection, in order. *)
Inductive wevent : Type :=
  | Write (data : bytes)
  | Drain
  | Close.

(** A [StreamWriter], as the log of the calls made on it. *)
Definition writer : Type := list wevent.

(** All bytes written, in order. *)
Fixpoint written (w : writer) : bytes :=
  match w with
  | [] => []
  | Write data :: w' => data ++ written w'
  | _ :: w' => written w'
  end.

(** The number of [close()] calls. *)
Fixpoint closes (w : writer) : nat :=
  match w with
  | [] => 0
  | Close :: w' => S (closes w')
  | _ :: w' => closes w'
  end.

(** [Response.send]; the result is the writer after the call. *)
Definition send (w : writer) (body : string) (status_code : Z)
    (content_type : string) : writer :=
  let response_line :=
    "HTTP/1.1 " +:+ str_of_int status_code +:+ " OK" +:+ crlf in
  let headers :=
    "Content-Type: " +:+ content_type +:+ crlf +:+
    "Content-Length: " +:+ str_of_int (Z.of_nat (length (encode body))) +:+
    crlf +:+ crlf in
  w ++ [Write (encode (response_line +:+ headers +:+ body)); Drain; Close].

(** What [open(file_path, "rb")] and [f.read()] give on each path: the
    bytes of a file that can be read, or the exception raised on a path
    that cannot (a directory, a file without permission); on a path that
    the map does not have, [open] raises [FileNotFoundError]. *)
Definition read_file (files : gmap string (res bytes)) (file_path : string)
  : res bytes :=
  default (Raise FileNotFoundError) (files !! file_path).

(** [Response.sendFile]: the writer after the call, and the exception
    that the call ends with, if any.  Only [FileNotFoundError] is caught;
    the [finally] block runs in every case. *)
Definition sendFile (files : gmap string (res bytes)) (w : writer)
    (file_path content_type : string) : writer * option exn :=
  let '(w, raised) :=
    match read_file files file_path with
    | Ok content =>
        let response_line := "HTTP/1.1 200 OK" +:+ crlf in
        let headers :=
          "Content-Type: " +:+ content_type +:+ crlf +:+
          "Content-Length: " +:+ str_of_int (Z.of_nat (length content)) +:+
          crlf +:+ crlf in
        (w ++ [Write (encode response_line); Write (encode headers);
               Write content; Drain], None)
    | Raise FileNotFoundError =>
        (send w "File not found" 404 "text/plain", None)
    | Raise e => (w, Some e)
    end in
  (* finally *)
  (w ++ [Close], raised).

(** [Response.sendJson] *)
Definition sendJson {codec : Codec} (w : writer) (data : json) : writer :=
  send w (json_dump data) 200 "application/json".

(** *** The wire parser *)

(** [s.split(sep)] for a separator of one or more characters; [skip] is
    the number of characters of a separator just found that are still to
    be passed over. *)
Fixpoint split_go (sep : string) (skip : nat) (s : string) : list string :=
  match s with
  | EmptyString => [""]
  | String c s' =>
      match skip with
      | S n => split_go sep n s'
      | O =>
          if startswith sep s
          then "" :: split_go sep (String.length sep - 1) s'
          else
            match split_go sep 0 s' with
            | x :: r => String c x :: r
            | [] => [String c ""]
            end
      end
  end.

Definition split (sep s : string) : list string := split_go sep 0 s.

(** [s.split(sep, 1)] when [sep in s]: the text before and after the first
    [sep]; [None] when [sep] does not occur. *)
Fixpoint split_once (sep s : string) : option (string * string) :=
  if startswith sep s
  then Some ("", str_drop (String.length sep) s)
  else
    match s with
    | EmptyString => None
    | String c s' =>
        match split_once sep s' with
        | Some (k, v) => Some (String c k, v)
        | None => None
        end
    end.

(** One turn of the header loop: [headers[key] = value] when [line] has a
    [": "]. *)
Definition add_header (headers : dict string) (line : string) : dict string :=
  match split_once ": " line with
  | Some (key, value) => dict_set key value headers
  | None => headers
  end.

(** The [while] loop of [__parse_request], from [lines[i:]]: the headers at
    its exit and [lines[i+1:]]. *)
Fixpoint parse_headers (lines : list string) (headers : dict string)
  : dict string * list string :=
  match lines with
  | [] => (headers, [])
  | line :: rest =>
      if truthy line then parse_headers rest (add_header headers line)
      else (headers, rest)
  end.

(** [__parse_request] *)
Definition parse_request (request_text : string)
  : string * dict string * string :=
  let lines := split crlf request_text in
  let request_line := hd "" lines in
  let '(headers, body_lines) := parse_headers (tl lines) [] in
  (request_line, headers, join crlf body_lines).

(** The header lines of a request: the lines after the request line, up
    to the first empty one. *)
Fixpoint header_block (lines : list string) : list string :=
  match lines with
  | [] => []
  | line :: rest => if truthy line then line :: header_block rest else []
  end.

(** The key that a header line sets, if it sets one. *)
Definition header_key (line : string) : option string :=
  fst <$> split_once ": " line.

(** The header mapping that [__parse_request] returns. *)
Definition request_headers (request_text : string) : dict string :=
  (parse_request request_text).1.2.

(** *** Python's [re] on the patterns of the router

    The model covers the patterns made of literal characters, [.], the
    anchors [^] and [$], a greedy [*], [+] or [?] after a literal or [.],
    and the named group [(?P<name>[^/]+)] that [on] generates. *)

(** [\w] on the characters below 256: [str.isalnum] or an underscore. *)
Definition is_word (c : ascii) : bool :=
  let n := N_of_ascii c in
  ((48 <=? n) && (n <=? 57) || (65 <=? n) && (n <=? 90) ||
   (97 <=? n) && (n <=? 122) || (n =? 95) ||
   (n =? 170) || (n =? 178) || (n =? 179) || (n =? 181) || (n =? 185) ||
   (n =? 186) || (188 <=? n) && (n <=? 190) ||
   (192 <=? n) && (n <=? 214) || (216 <=? n) && (n <=? 246) ||
   (248 <=? n))%N.

(** The first and the later characters of an identifier
    ([str.isidentifier]), below 256. *)
Definition is_id_start (c : ascii) : bool :=
  let n := N_of_ascii c in
  ((65 <=? n) && (n <=? 90) || (97 <=? n) && (n <=? 122) || (n =? 95) ||
   (n =? 170) || (n =? 181) || (n =? 186) ||
   (192 <=? n) && (n <=? 214) || (216 <=? n) && (n <=? 246) ||
   (248 <=? n))%N.

Definition is_id_continue (c : ascii) : bool :=
  let n := N_of_ascii c in
  is_id_start c || ((48 <=? n) && (n <=? 57) || (n =? 183))%N.

Fixpoint all_chars (p : ascii -> bool) (s : string) : bool :=
  match s with
  | EmptyString => true
  | String c s' => p c && all_chars p s'
  end.

Definition is_identifier (s : string) : bool :=
  match s with
  | EmptyString => false
  | String c s' => is_id_start c && all_chars is_id_continue s'
  end.

(** The longest prefix of [s] made of characters for which [p] holds, and
    what follows it. *)
Fixpoint span (p : ascii -> bool) (s : string) : string * string :=
  match s with
  | String c s' =>
      if p c then let '(a, b) := span p s' in (String c a, b) else ("", s)
  | EmptyString => ("", "")
  end.

(** A match of [\[(\w+)\]] at the head of [s]: the group. *)
Definition bracket_name (s : string) : option string :=
  match s with
  | String c s' =>
      if Ascii.eqb c "[" then
        match span is_word s' with
        | (String n name, String d _) =>
            if Ascii.eqb d "]" then Some (String n name) else None
        | _ => None
        end
      else None
  | EmptyString => None
  end.

(** [re.sub(r"\[(\w+)\]", r"(?P<\1>[^/]+)", s)]; [skip] counts the
    characters of a match that are still to be passed over. *)
Fixpoint sub_go (skip : nat) (s : string) : string :=
  match s with
  | EmptyString => ""
  | String c s' =>
      match skip with
      | S n => sub_go n s'
      | O =>
          match bracket_name s with
          | Some name =>
              "(?P<" +:+ name +:+ ">[^/]+)" +:+
              sub_go (S (String.length name)) s'
          | None => String c (sub_go 0 s')
          end
      end
  end.

Definition re_sub (path : string) : string := sub_go 0 path.

(** What matches one character. *)
Inductive atom : Type :=
  | ALit (c : ascii)
  | ADot.

Inductive item : Type :=
  | IOne (a : atom)
  | IStar (a : atom)
  | IPlus (a : atom)
  | IOpt (a : atom)
  | IParam (name : string)
  | IBol
  | IEol.

(** A compiled pattern. *)
Definition regex : Type := list item.

Definition atom_ok (a : atom) (c : ascii) : bool :=
  match a with
  | ALit x => Ascii.eqb x c
  | ADot => negb (Ascii.eqb c LF)
  end.

Definition not_slash (c : ascii) : bool := negb (Ascii.eqb c "/").

(** The name of a group opened by ["("], whose text is [s] after the
    parenthesis: [s] has to be [?P<name>[^/]+)] and what follows. *)
Definition parse_group (s : string) : option (string * string) :=
  if startswith "?P<" s then
    let '(name, rest) :=
      span (fun c => negb (Ascii.eqb c ">")) (str_drop 3 s) in
    if is_identifier name && startswith ">[^/]+)" rest
    then Some (name, str_drop 7 rest)
    else None
  else None.

Definition is_special (c : ascii) : bool :=
  existsb (Ascii.eqb c) ["["; "{"; "\"; "|"; "("; ")"; "*"; "+"; "?"]%char.

(** [re.compile] on the modelled patterns; [None] where [re.compile]
    raises [re.error] and where the pattern is outside the model (groups
    other than the generated one, alternatives, classes, escapes,
    quantifiers on more than one character). *)
Fixpoint parse (fuel : nat) (seen : list string) (s : string) : option regex :=
  match fuel with
  | O => None
  | S fuel =>
      match s with
      | EmptyString => Some []
      | String c s' =>
          if Ascii.eqb c "(" then
            match parse_group s' with
            | Some (name, rest) =>
                if bool_decide (name ∈ seen) then None
                else cons (IParam name) <$> parse fuel (name :: seen) rest
            | None => None
            end
          else if is_special c then None
          else if Ascii.eqb c "^" then cons IBol <$> parse fuel seen s'
          else if Ascii.eqb c "$" then cons IEol <$> parse fuel seen s'
          else
            let a := if Ascii.eqb c "." then ADot else ALit c in
            match s' with
            | String q s'' =>
                if Ascii.eqb q "*" then cons (IStar a) <$> parse fuel seen s''
                else if Ascii.eqb q "+"
                then cons (IPlus a) <$> parse fuel seen s''
                else if Ascii.eqb q "?"
                then cons (IOpt a) <$> parse fuel seen s''
                else cons (IOne a) <$> parse fuel seen s'
            | EmptyString => Some [IOne a]
            end
      end
  end.

Definition re_compile (pattern : string) : option regex :=
  parse (S (String.length pattern)) [] pattern.

(** As many characters that satisfy [ok] as possible, then [k] on what was
    taken and what is left; one character fewer each time [k] fails. *)
Fixpoint greedy {R : Type} (ok : ascii -> bool)
    (k : string -> string -> option R) (s : string) : option R :=
  match s with
  | String c s' =>
      if ok c then
        match greedy ok (fun taken rest => k (String c taken) rest) s' with
        | Some r => Some r
        | None => k "" s
        end
      else k "" s
  | EmptyString => k "" s
  end.

(** The same with at least one character. *)
Definition greedy1 {R : Type} (ok : ascii -> bool)
    (k : string -> string -> option R) (s : string) : option R :=
  match s with
  | String c s' =>
      if ok c then greedy ok (fun taken rest => k (String c taken) rest) s'
      else None
  | EmptyString => None
  end.

(** [$]: the end of the string, or just before a newline that ends it. *)
Definition at_end (s : string) : bool :=
  match s with
  | EmptyString => true
  | String c EmptyString => Ascii.eqb c LF
  | _ => false
  end.

(** The match of [items] at the head of [s]; [start] tells that [s] is the
    whole subject, [groups] holds the named groups matched so far, and
    [final] is what the match asks of the text left after it: nothing for
    [match], to be empty for [fullmatch]. *)
Fixpoint match_items (final : string -> bool) (items : regex) (start : bool)
    (s : string) (groups : dict string) : option (dict string) :=
  match items with
  | [] => if final s then Some groups else None
  | IOne a :: r =>
      match s with
      | String c s' =>
          if atom_ok a c then match_items final r false s' groups else None
      | EmptyString => None
      end
  | IStar a :: r =>
      greedy (atom_ok a)
        (fun taken rest =>
           match_items final r (start && negb (truthy taken)) rest groups) s
  | IPlus a :: r =>
      greedy1 (atom_ok a)
        (fun _ rest => match_items final r false rest groups) s
  | IOpt a :: r =>
      match s with
      | String c s' =>
          if atom_ok a c then
            match match_items final r false s' groups with
            | Some g => Some g
            | None => match_items final r start s groups
            end
          else match_items final r start s groups
      | EmptyString => match_items final r start s groups
      end
  | IParam name :: r =>
      greedy1 not_slash
        (fun taken rest =>
           match_items final r false rest (dict_set name taken groups)) s
  | IBol :: r => if start then match_items final r start s groups else None
  | IEol :: r =>
      if at_end s then match_items final r start s groups else None
  end.

(** [regex.match(path)], as the [groupdict()] of the match. *)
Definition re_match (r : regex) (path : string) : option (dict string) :=
  match_items (fun _ => true) r true path [].

(** [regex.fullmatch(path)]: the match has to end where [path] ends. *)
Definition re_fullmatch (r : regex) (path : string) : option (dict string) :=
  match_items (fun rest => negb (truthy rest)) r true path [].

(** *** The router and the connection handler *)

(** [data.decode('utf-8', 'ignore')] *)
Class Decoder : Type := decode : bytes -> string.

Section Server.
(** The type of the handlers that an application registers. *)
Context {handler : Type}.
Context {codec : Codec} {decoder : Decoder}.

(** An entry of [self.routes]. *)
Definition route : Type := string * regex * handler.

(** [Server.on(path, method)(func)]: the routes after the registration,
    for the patterns that [re_compile] models. *)
Definition on (routes : list route) (path method : string) (func : handler)
  : res (list route) :=
  let pattern := re_sub path in
  let pattern := "^" +:+ pattern +:+ "$" in
  match re_compile pattern with
  | Some regex => Ok (routes ++ [(method, regex, func)])
  | None => Raise ReError
  end.

(** The [for] loop of [__handle_client]: the handler that is called and
    its keyword arguments, or [None] when the loop ends without a call. *)
Fixpoint dispatch (routes : list route) (method path : string)
  : option (handler * dict string) :=
  match routes with
  | [] => None
  | (m, regex, h) :: rest =>
      if String.eqb m method then
        match re_match regex path with
        | Some groups => Some (h, groups)
        | None => dispatch rest method path
        end
      else dispatch rest method path
  end.

(** class [Request]: an object with the four attributes of
    [__slots__], and no other. *)
Record Request : Type := mkRequest {
  method : string;
  path : string;
  headers : dict string;
  body : string
}.

(** [Request.__init__].  The four attributes of [__slots__] are set; then
    [json.loads(body) if body else {}] is evaluated, which raises on a body
    that is not JSON; then its value is assigned to [self.bodyJson], which
    is not in [__slots__]: the assignment raises [AttributeError].  No
    call returns a [Request]. *)
Definition new_request (method path : string) (headers : dict string)
    (body : string) : res Request :=
  let value := if truthy body then json_load body else Some (JObj []) in
  match value with
  | Some _ => Raise AttributeError
  | None => Raise JSONDecodeError
  end.

(** How [__handle_client] ends: it returns with the writer in the given
    state, it hands the request and the writer to a handler, or it
    raises. *)
Inductive outcome : Type :=
  | Returned (w : writer)
  | Handled (h : handler) (req : Request) (w : writer) (kwargs : dict string)
  | Raised (e : exn) (w : writer).

(** [__handle_client]; [data] is what [reader.read(65536)] returned. *)
Definition handle_client (routes : list route) (data : bytes) (w : writer)
  : outcome :=
  match data with
  | [] => Returned (w ++ [Close])
  | _ :: _ =>
      let '(request_line, headers, body) := parse_request (decode data) in
      let parts := split " " request_line in
      if (length parts <? 3)%nat then Returned (w ++ [Close])
      else
        let method := nth 0 parts "" in
        let path := nth 1 parts "" in
        match new_request method path headers body with
        | Raise e => Raised e w
        | Ok req =>
            match dispatch routes method path with
            | Some (h, kwargs) => Handled h req w kwargs
            | None => Returned (send w "404 Not Found" 404 "text/plain")
            end
        end
  end.

(** The request line that [__handle_client] splits. *)
Definition request_line_of (data : bytes) : string :=
  (parse_request (decode data)).1.1.

End Server.

(** *** Path patterns made of literal text and bracketed segments *)

(** A piece of a path pattern: literal text, or a bracketed segment
    [[name]] together with the value that a request path puts in its
    place. *)
Inductive seg : Type :=
  | Lit (text : string)
  | Param (name value : string).

(** The pattern as it is given to [on]. *)
Fixpoint pattern_text (segs : list seg) : string :=
  match segs with
  | [] => ""
  | Lit text :: r => text +:+ pattern_text r
  | Param name _ :: r => "[" +:+ name +:+ "]" +:+ pattern_text r
  end.

(** The request path: the pattern with each value in place of its
    bracketed segment. *)
Fixpoint path_text (segs : list seg) : string :=
  match segs with
  | [] => ""
  | Lit text :: r => text +:+ path_text r
  | Param _ value :: r => value +:+ path_text r
  end.

(** The text that [re.sub] makes of the pattern. *)
Fixpoint regex_text (segs : list seg) : string :=
  match segs with
  | [] => ""
  | Lit text :: r => text +:+ regex_text r
  | Param name _ :: r => "(?P<" +:+ name +:+ ">[^/]+)" +:+ regex_text r
  end.

Definition lit_atom (c : ascii) : atom :=
  if Ascii.eqb c "." then ADot else ALit c.

Fixpoint lit_items (text : string) : regex :=
  match text with
  | EmptyString => []
  | String c text' => IOne (lit_atom c) :: lit_items text'
  end.

(** The compiled pattern, between its anchors. *)
Fixpoint regex_items (segs : list seg) : regex :=
  match segs with
  | [] => []
  | Lit text :: r => lit_items text ++ regex_items r
  | Param name _ :: r => IParam name :: regex_items r
  end.

(** The parameter mapping: each name with its value, in order. *)
Fixpoint params (segs : list seg) : dict string :=
  match segs with
  | [] => []
  | Lit _ :: r => params r
  | Param name value :: r => (name, value) :: params r
  end.

(** A character with no meaning of its own in a regular expression, or
    the dot (which matches itself among others). *)
Definition plain_char (c : ascii) : bool :=
  negb (is_special c) && negb (Ascii.eqb c "^") && negb (Ascii.eqb c "$").

(** [t] is empty or starts with a slash. *)
Definition segment_end (t : string) : bool :=
  match t with
  | EmptyString => true
  | String c _ => Ascii.eqb c "/"
  end.

Definition has_key (name : string) (d : dict string) : bool :=
  match dict_get name d with Some _ => true | None => false end.

(** The patterns of the amended claim: literal text of plain characters;
    each bracketed name an identifier of word characters, not used twice,
    and closing its path segment; each value one or more characters other
    than the slash. *)
Fixpoint segs_ok (segs : list seg) : bool :=
  match segs with
  | [] => true
  | Lit text :: r => all_chars plain_char text && segs_ok r
  | Param name value :: r =>
      is_identifier name && all_chars is_word name &&
      truthy value && all_chars not_slash value &&
      segment_end (pattern_text r) && negb (has_key name (params r)) &&
      segs_ok r
  end.

(** [stops p t]: [t] is empty or starts with a character that fails [p]. *)
Definition stops (p : ascii -> bool) (t : string) : bool :=
  match t with
  | EmptyString => true
  | String c _ => negb (p c)
  end.

(** [t] starts with a character that is not a quantifier. *)
Definition no_quant (t : string) : bool :=
  match t with
  | EmptyString => false
  | String q _ =>
      negb (Ascii.eqb q "*") && negb (Ascii.eqb q "+") && negb (Ascii.eqb q "?")
  end.

(** The groups after the match of [segs], from the groups [g]. *)
Fixpoint groups_after (g : dict string) (segs : list seg) : dict string :=
  match segs with
  | [] => g
  | Lit _ :: r => groups_after g r
  | Param name value :: r => groups_after (dict_set name value g) r
  end.

End Http.

(** ** The store at start-up, and the store seen as a map *)

Module StoreModel.
Import Store Http.

Section Startup.
Context {codec : Codec}.

(** The index that [self.tables[table_name] = json.load(f)] stores, when the
    file holds an object whose values are strings; the model has no other
    index. *)
Fixpoint as_index_entries (l : dict json) : option (dict string) :=
  match l with
  | [] => Some []
  | (k, JStr file_path) :: l' =>
      match as_index_entries l' with
      | Some idx => Some ((k, file_path) :: idx)
      | None => None
      end
  | _ :: _ => None
  end.

Definition as_index (j : json) : option (dict string) :=
  match j with
  | JObj l => as_index_entries l
  | _ => None
  end.

(** How [__load_tables] ends: with the store loaded, with an exception of
    [json.load], or with an [index.json] that holds something else than
    an object of strings, which is outside the model. *)
Inductive loaded : Type :=
  | Loaded (db : Database)
  | LoadRaised (e : exn)
  | NotAnIndex (table_name : string).

(** [__load_tables]; [names] is what [os.listdir(self.base_path)]
    returns and [isdir] is [os.path.isdir]. *)
Fixpoint load_tables (isdir : string -> bool) (names : list string)
    (db : Database) : loaded :=
  match names with
  | [] => Loaded db
  | table_name :: rest =>
      let table_path := path_join (base_path db) table_name in
      if isdir table_path then
        let index_file := path_join table_path "index.json" in
        if path_exists db index_file then
          match disk db !! index_file with
          | Some text =>
              match json_load text with
              | Some j =>
                  match as_index j with
                  | Some idx =>
                      load_tables isdir rest
                        (with_tables db (<[table_name := idx]> (tables db)))
                  | None => NotAnIndex table_name
                  end
              | None => LoadRaised JSONDecodeError
              end
          | None => LoadRaised FileNotFoundError
          end
        else
          let db := with_tables db (<[table_name := []]> (tables db)) in
          let db :=
            with_disk db (<[index_file := json_dump (JObj [])]> (disk db)) in
          load_tables isdir rest db
      else load_tables isdir rest db
  end.

(** [Database.__init__] on the files [files]. *)
Definition new_database (isdir : string -> bool) (names : list string)
    (db_path : string) (files : gmap string string) : loaded :=
  load_tables isdir names (mkDatabase db_path ∅ files).

End Startup.

(** A table name that is one path component: not empty, without slash,
    and neither [.] nor [..]. *)
Definition simple_table (t : string) : bool :=
  truthy t && all_chars not_slash t &&
  negb (String.eqb t ".") && negb (String.eqb t "..").

(** A key that stays inside the [keys] directory: without slash. *)
Definition simple_key (k : string) : bool := all_chars not_slash k.

(** A call whose [set] uses a simple table and a simple key. *)
Definition simple_op (o : op) : bool :=
  match o with
  | OpSet t k _ => simple_table t && simple_key k
  | OpDelete _ _ => true
  end.

(** The store as its user sees it: a value for some pairs of a table and a
    key. *)
Definition apply_op (m : gmap (string * string) json) (o : op)
  : gmap (string * string) json :=
  match o with
  | OpSet t k v => <[(t, k) := v]> m
  | OpDelete t k => base.delete (t, k) m
  end.

Definition apply_ops (m : gmap (string * string) json) (ops : list op)
  : gmap (string * string) json :=
  fold_left apply_op ops m.

Section Consistency.
Context {codec : Codec}.

(** [json.load] reads back the dump of [v]. *)
Definition codec_ok (v : json) : Prop := json_load (json_dump v) = Some v.

Definition codec_ok_op (o : op) : Prop :=
  match o with
  | OpSet _ _ v => codec_ok v
  | OpDelete _ _ => True
  end.

(** The store [db] holds the map [m]: the index of each table lists
    exactly the keys of [m], each under its own value file, which holds
    the dump of the value; and each [index.json] holds the dump of its
    index. *)
Definition consistent (db : Database) (m : gmap (string * string) json)
  : Prop :=
  (forall t k,
      index_entry db t k = (fun _ => key_file db t k) <$> m !! (t, k)) /\
  (forall t k v,
      m !! (t, k) = Some v ->
      simple_table t = true /\ simple_key k = true /\
      disk db !! key_file db t k = Some (json_dump v)) /\
  (forall t idx,
      tables db !! t = Some idx ->
      simple_table t = true /\
      disk db !! index_file db t = Some (json_dump (index_json idx))).

End Consistency.

(** [base_path] with the separator that [os.path.join] puts after it. *)
Definition root_prefix (base : string) : string :=
  if negb (truthy base) || endswith_slash base then base else base +:+ "/".

End StoreModel.

(** ** Requests as they are sent *)

Module Wire.
Import Http.

(** A text with no line feed, such as one line of a request. *)
Definition one_line (s : string) : bool :=
  all_chars (fun c => negb (Ascii.eqb c LF)) s.

(** A token of the request line: no space in it. *)
Definition no_space (s : string) : bool :=
  all_chars (fun c => negb (Ascii.eqb c " ")) s.

(** A header name: no colon in it. *)
Definition no_colon (s : string) : bool :=
  all_chars (fun c => negb (Ascii.eqb c ":")) s.

(** The line [name: value] of a header. *)
Definition header_line (kv : string * string) : string :=
  kv.1 +:+ ": " +:+ kv.2.

(** A header that takes one non-ambiguous line. *)
Definition header_ok (kv : string * string) : bool :=
  no_colon kv.1 && one_line kv.1 && one_line kv.2.

(** The text of a request: the request line, one line for each header, an
    empty line, the body. *)
Definition request_text (request_line : string)
    (hs : list (string * string)) (body : string) : string :=
  join crlf (request_line :: map header_line hs) +:+ crlf +:+ crlf +:+ body.

(** [d[k] = v] for each pair, in order. *)
Definition set_all (hs : list (string * string)) (d : dict string)
  : dict string :=
  fold_left (fun d kv => dict_set kv.1 kv.2 d) hs d.

(** The names of the groups of a compiled pattern, in order. *)
Fixpoint param_names (r : regex) : list string :=
  match r with
  | [] => []
  | IParam name :: r' => name :: param_names r'
  | _ :: r' => param_names r'
  end.

(** A character that a pattern matches literally and alone: not special
    to [re], no anchor, not the dot. *)
Definition literal_char (c : ascii) : bool :=
  plain_char c && negb (Ascii.eqb c ".").

(** The bracketed names of a path pattern, in order. *)
Fixpoint seg_names (segs : list seg) : list string :=
  match segs with
  | [] => []
  | Lit _ :: r => seg_names r
  | Param name _ :: r => name :: seg_names r
  end.

(** A path pattern of literal text without special characters and of
    bracketed identifiers; a name may come twice. *)
Fixpoint segs_shape (segs : list seg) : bool :=
  match segs with
  | [] => true
  | Lit text :: r => all_chars plain_char text && segs_shape r
  | Param name _ :: r =>
      is_identifier name && all_chars is_word name && segs_shape r
  end.

(** The route lists that an application builds with [on] from path
    patterns of literal text and bracketed identifiers. *)
Inductive registered {handler : Type} : list (@route handler) -> Prop :=
  | registered_nil : registered []
  | registered_on (routes routes' : list (@route handler))
      (segs : list seg) (m : string) (h : handler) :
      registered routes -> segs_shape segs = true ->
      on routes (pattern_text segs) m h = Ok routes' ->
      registered routes'.

End Wire.

(** ** Concrete stores and requests *)

Module Sample.
Import Store Http.

(** A store on the default root, and one on an absolute root, both with no
    table yet. *)
Definition db0 : Database := mkDatabase "./db/" ∅ ∅.
Definition db_abs : Database := mkDatabase "/db/" ∅ ∅.

Definition profile : json :=
  JObj [("age", JNum 30); ("tags", JArr [JStr "a"; JNull; JBool true])].

(** [db0] after [set("users", "alice", profile)]. *)
Definition db_alice : Database :=
  mkDatabase "./db/"
    {[ "users" := [("alice", "./db/users/keys/alice.json")] ]}
    (<["./db/users/index.json" :=
         dumps (JObj [("alice", JStr "./db/users/keys/alice.json")])]>
       {[ "./db/users/keys/alice.json" := dumps profile ]}).

(** [bytes.decode('utf-8', 'ignore')] on the encodings of the characters
    below 256; any other byte is passed over, as an invalid byte is. *)
Fixpoint decode_latin (data : bytes) : string :=
  match data with
  | [] => ""
  | b :: rest =>
      let n := N_of_ascii b in
      if (n <? 128)%N then String b (decode_latin rest)
      else
        match rest with
        | c :: rest' =>
            let m := N_of_ascii c in
            if ((194 <=? n) && (n <=? 195) && (128 <=? m) && (m <=? 191))%N
            then
              String (ascii_of_N ((n - 192) * 64 + (m - 128)))
                (decode_latin rest')
            else decode_latin rest
        | [] => ""
        end
  end.

Definition latin_decoder : Decoder := decode_latin.

(** The handlers of a small application. *)
Inductive app_handler : Set :=
  | list_items
  | show_item
  | show_any.

(** ["/items\n"] *)
Definition items_newline : string := "/items" +:+ String LF "".

(** The request [GET /items\n HTTP/1.1], with no header and no body. *)
Definition newline_request : bytes :=
  encode ("GET " +:+ items_newline +:+ " HTTP/1.1" +:+ crlf +:+ crlf).

(** A request with two [Host] lines and an [Accept] line after them. *)
Definition two_hosts : string :=
  "GET / HTTP/1.1" +:+ crlf +:+ "Host: a" +:+ crlf +:+ "X-Id: 7" +:+ crlf +:+
  "Host: b" +:+ crlf +:+ "Accept: c" +:+ crlf +:+ crlf +:+ "body".

End Sample.

(** ** More concrete stores and requests *)

Module Cases.
Import Store Http Wire Sample.

(** Calls on two tables: two keys set, one of them deleted again. *)
Definition ops_sample : list op :=
  [OpSet "users" "alice" profile; OpSet "users" "bob" (JNum 1);
   OpDelete "users" "alice"; OpSet "posts" "p1" (JStr "hi")].

(** A value with a [float] in it. *)
Definition reading : json :=
  JObj [("sensor", JStr "t1"); ("celsius", JFloat "21.5");
        ("samples", JArr [JNum 3; JFloat "-0.25"; JNull])].


(** A root with one directory and one plain file. *)
Definition root_names : list string := ["users"; "notes.txt"].

Definition root_isdir (path : string) : bool := String.eqb path "./db/users".

Definition root_files : gmap string string := {[ "./db/notes.txt" := "hello" ]}.

(** The route of [/items/[id]] for [GET]. *)
Definition item_regex : regex :=
  [IBol; IOne (ALit "/"); IOne (ALit "i"); IOne (ALit "t"); IOne (ALit "e");
   IOne (ALit "m"); IOne (ALit "s"); IOne (ALit "/"); IParam "id"; IEol].

Definition item_routes : list (@route app_handler) :=
  [("GET", item_regex, show_item)].

Definition item_headers : list (string * string) :=
  [("Host", "example.org"); ("Accept", "text/html")].

(** [GET /items/42] with two headers and no body, [POST /items] with a
    JSON body, and the same with a body that is not JSON. *)
Definition get_item : bytes :=
  encode (request_text "GET /items/42 HTTP/1.1" item_headers "").

Definition post_items : bytes :=
  encode (request_text "POST /items HTTP/1.1" item_headers "[1, 2]").

Definition post_broken : bytes :=
  encode (request_text "POST /items HTTP/1.1" item_headers "{oops").

(** A file that [sendFile] can read, and a directory. *)
Definition site_files : gmap string (res bytes) :=
  <["/srv" := Raise IsADirectoryError]>
    {[ "/srv/index.html" := Ok (encode "<h1>hi</h1>") ]}.

End Cases.

(** * Part II: lemmas and theorems *)

(** ** Strings and dictionaries *)

Module PyFacts.

Lemma append_cons (c : ascii) (a b : string) :
  String c a +:+ b = String c (a +:+ b).
Proof. reflexivity. Qed.

Lemma append_nil_l (s : string) : "" +:+ s = s.
Proof. reflexivity. Qed.

Lemma append_nil_r (s : string) : s +:+ "" = s.
Proof. induction s as [|c s IH]; [done|]. by rewrite append_cons, IH. Qed.

Lemma append_assoc (a b c : string) : (a +:+ b) +:+ c = a +:+ (b +:+ c).
Proof. induction a as [|x a IH]; [done|]. by rewrite !append_cons, IH. Qed.

Lemma truthy_append (a b : string) : truthy (a +:+ b) = truthy a || truthy b.
Proof. by destruct a. Qed.

Lemma truthy_path_join (a b : string) :
  truthy b = true -> truthy (path_join a b) = true.
Proof.
  intros Hb. unfold path_join.
  destruct (startswith "/" b); [done|].
  destruct (negb (truthy a) || endswith_slash a);
    rewrite !truthy_append, Hb; by rewrite ?orb_true_r.
Qed.

Lemma length_append (a b : string) :
  String.length (a +:+ b) = String.length a + String.length b.
Proof. induction a as [|c a IH]; [done|]. rewrite append_cons. simpl. lia. Qed.

Section Dict.
Context {V : Type}.
Implicit Types (d : dict V) (k : string) (v : V).

Lemma dict_get_set_eq k v d : dict_get k (dict_set k v d) = Some v.
Proof.
  induction d as [|[k' v'] d IH]; simpl.
  - by rewrite String.eqb_refl.
  - destruct (String.eqb k k') eqn:E; simpl; rewrite ?String.eqb_refl, ?E; done.
Qed.

Lemma dict_get_remove_eq k d : dict_get k (dict_remove k d) = None.
Proof.
  induction d as [|[k' v'] d IH]; simpl; [done|].
  destruct (String.eqb k k') eqn:E; simpl; rewrite ?E; done.
Qed.

Lemma dict_get_set_ne k k' v d :
  k <> k' -> dict_get k (dict_set k' v d) = dict_get k d.
Proof.
  intros Hne. apply String.eqb_neq in Hne.
  induction d as [|[k1 v1] d IH]; simpl; [by rewrite Hne|].
  destruct (String.eqb k' k1) eqn:E; simpl.
  - apply String.eqb_eq in E. subst k1. by rewrite Hne.
  - by rewrite IH.
Qed.

Lemma dict_get_remove_None k k' d :
  dict_get k d = None -> dict_get k (dict_remove k' d) = None.
Proof.
  induction d as [|[k1 v1] d IH]; simpl; [done|].
  destruct (String.eqb k k1) eqn:E; [done|]. intros H.
  destruct (String.eqb k' k1); simpl; rewrite ?E; auto.
Qed.

Lemma dict_remove_absent k d : dict_get k d = None -> dict_remove k d = d.
Proof.
  induction d as [|[k' v'] d IH]; simpl; [done|].
  destruct (String.eqb k k'); [done|]. intros H. by rewrite IH.
Qed.

Lemma dict_set_fresh k v d :
  dict_get k d = None -> dict_set k v d = d ++ [(k, v)].
Proof.
  induction d as [|[k' v'] d IH]; simpl; [done|].
  destruct (String.eqb k k'); [done|]. intros H. by rewrite IH.
Qed.

Lemma dict_get_app_fresh k d (e : dict V) :
  dict_get k d = None -> dict_get k (d ++ e) = dict_get k e.
Proof.
  induction d as [|[k' v'] d IH]; simpl; [done|].
  destruct (String.eqb k k'); [done|]. apply IH.
Qed.

Lemma dict_get_None_not_in k v d : dict_get k d = None -> (k, v) ∉ d.
Proof.
  induction d as [|[k1 v1] d IH]; simpl; intros H Hin.
  - by apply elem_of_nil in Hin.
  - destruct (String.eqb_spec k k1) as [->|Hne]; [done|].
    apply elem_of_cons in Hin as [[= ? ?]|Hin]; [done|]. by apply IH.
Qed.

End Dict.

End PyFacts.

Import PyFacts.

(** ** [json.loads] reads back what [json.dumps] writes *)

Module JsonFacts.
Import Json.

Lemma read_digits_delim (acc : N) (rest : string) :
  delim rest = true -> read_digits acc rest = (acc, rest).
Proof.
  destruct rest as [|c rest]; [done|]. simpl. unfold is_digit.
  destruct (digit_val c); [done|]. done.
Qed.

Lemma read_digits_step (acc k : N) (c : ascii) (t : string) :
  digit_val c = Some k ->
  read_digits acc (String c t) = read_digits (10 * acc + k) t.
Proof. intros H. simpl. by rewrite H. Qed.

Lemma read_digits_uint (d : Decimal.uint) : forall acc rest,
  delim rest = true ->
  read_digits acc (NilEmpty.string_of_uint d +:+ rest) = (horner acc d, rest).
Proof.
  induction d; intros acc rest Hrest; cbn [NilEmpty.string_of_uint horner];
    [by apply read_digits_delim|..];
    rewrite append_cons; erewrite read_digits_step by reflexivity;
    by apply IHd.
Qed.

Lemma horner_pos (d : Decimal.uint) : forall a : positive,
  horner (N.pos a) d = N.pos (Pos.of_uint_acc d a).
Proof.
  induction d; intros a; cbn [horner Pos.of_uint_acc]; [done|..];
    rewrite <- IHd; f_equal; lia.
Qed.

Lemma horner_of_uint (d : Decimal.uint) : horner 0 d = Pos.of_uint d.
Proof.
  induction d; cbn [horner Pos.of_uint]; [done | done |..];
    apply (horner_pos d).
Qed.

(** The digits of a positive number start with a digit other than
    zero. *)
Lemma to_uint_head (p : positive) :
  exists c t,
    NilZero.string_of_uint (Pos.to_uint p) = String c t /\
    NilEmpty.string_of_uint (Pos.to_uint p) = String c t /\
    is_digit c = true /\ Ascii.eqb c "0" = false.
Proof.
  pose proof (DecimalPos.Unsigned.to_of (Pos.to_uint p)) as Hn.
  rewrite DecimalPos.Unsigned.of_to in Hn. simpl in Hn.
  pose proof (DecimalPos.Unsigned.to_uint_nonzero p) as Hz.
  unfold Decimal.unorm in Hn.
  destruct (Decimal.nzhead (Pos.to_uint p)) eqn:E;
    try (rewrite Hn; simpl; by eauto 10).
  by apply DecimalFacts.nzhead_nonzero in E.
Qed.

Lemma after_number {A : Type} (x : A) (rest : string) :
  delim rest = true ->
  match rest with
  | String d _ => if is_float_mark d then None else Some x
  | EmptyString => Some x
  end = Some x.
Proof.
  destruct rest as [|d rest]; [done|]. simpl.
  intros [_ Hf]%andb_true_iff. apply negb_true_iff in Hf. by rewrite Hf.
Qed.

Lemma read_nat_pos (p : positive) (rest : string) :
  delim rest = true ->
  read_nat (NilEmpty.string_of_uint (Pos.to_uint p) +:+ rest) =
    Some (N.pos p, rest).
Proof.
  intros Hrest. destruct (to_uint_head p) as (c & t & _ & E & Hd & H0).
  pose proof (read_digits_uint (Pos.to_uint p) 0 rest Hrest) as Hr.
  rewrite horner_of_uint, DecimalPos.Unsigned.of_to in Hr.
  rewrite E in Hr |- *. rewrite append_cons in Hr |- *.
  unfold read_nat. rewrite H0, Hd, Hr. by apply after_number.
Qed.

Lemma read_nat_zero (rest : string) :
  delim rest = true -> read_nat (String "0" rest) = Some (0%N, rest).
Proof. intros Hrest. unfold read_nat. simpl. by apply after_number. Qed.

Lemma read_number_str (n : Z) (rest : string) :
  delim rest = true ->
  read_number (str_of_int n +:+ rest) = Some (n, rest).
Proof.
  intros Hrest. unfold str_of_int. destruct n as [|p|p].
  - change (NilZero.string_of_int (Z.to_int 0) +:+ rest)
      with (String "0" rest).
    unfold read_number. change (Ascii.eqb "0" "-") with false. cbn iota.
    by rewrite read_nat_zero.
  - destruct (to_uint_head p) as (c & t & E0 & E & Hd & H0).
    change (NilZero.string_of_int (Z.to_int (Z.pos p)))
      with (NilZero.string_of_uint (Pos.to_uint p)).
    pose proof (read_nat_pos p rest Hrest) as Hn.
    rewrite E0. rewrite E in Hn. rewrite append_cons in Hn |- *.
    unfold read_number.
    assert (Hm : Ascii.eqb c "-" = false).
    { destruct (Ascii.eqb_spec c "-") as [->|]; [done|done]. }
    by rewrite Hm, Hn.
  - destruct (to_uint_head p) as (c & t & E0 & E & Hd & H0).
    change (NilZero.string_of_int (Z.to_int (Z.neg p)))
      with (String "-" (NilZero.string_of_uint (Pos.to_uint p))).
    pose proof (read_nat_pos p rest Hrest) as Hn.
    rewrite E0. rewrite E in Hn. rewrite append_cons.
    unfold read_number. rewrite Ascii.eqb_refl. by rewrite Hn.
Qed.

Lemma str_of_int_start (n : Z) :
  exists c t, str_of_int n = String c t /\ num_start c = true.
Proof.
  unfold str_of_int, num_start. destruct n as [|p|p]; simpl.
  - by exists "0"%char, "".
  - destruct (to_uint_head p) as (c & t & E0 & _ & Hd & _).
    exists c, t. by rewrite Hd.
  - eexists _, _. split; [reflexivity|]. reflexivity.
Qed.

Lemma read_value_num_start (fuel : nat) (c : ascii) (t : string) :
  num_start c = true ->
  read_value (S fuel) (String c t) =
    match read_number (String c t) with
    | Some (z, r) => Some (JNum z, r)
    | None =>
        match read_float (String c t) with
        | Some (repr, r) => Some (JFloat repr, r)
        | None => None
        end
    end.
Proof.
  destruct c as [[] [] [] [] [] [] [] []]; intros H;
    try discriminate H; reflexivity.
Qed.

Lemma read_value_number (fuel : nat) (n : Z) (rest : string) :
  delim rest = true ->
  read_value (S fuel) (str_of_int n +:+ rest) = Some (JNum n, rest).
Proof.
  intros Hrest. destruct (str_of_int_start n) as (c & t & E & Hc).
  pose proof (read_number_str n rest Hrest) as Hn.
  rewrite E, append_cons in Hn |- *.
  by rewrite read_value_num_start, Hn.
Qed.

Lemma take_digits_split (s : string) :
  s = (take_digits s).1 +:+ (take_digits s).2.
Proof.
  induction s as [|c s IH]; [done|]. cbn [take_digits].
  destruct (is_digit c); [|done].
  destruct (take_digits s) as [a b]. simpl in *. by rewrite append_cons, <- IH.
Qed.

Lemma take_digits_app (s rest : string) :
  delim rest = true ->
  take_digits (s +:+ rest) = ((take_digits s).1, (take_digits s).2 +:+ rest).
Proof.
  intros Hrest. induction s as [|c s IH].
  - rewrite append_nil_l. destruct rest as [|d rest]; [done|].
    simpl in Hrest |- *. apply andb_true_iff in Hrest as [Hd _].
    apply negb_true_iff in Hd. by rewrite Hd.
  - rewrite append_cons. cbn [take_digits]. destruct (is_digit c); [|done].
    rewrite IH. by destruct (take_digits s).
Qed.

Lemma read_digits_rest (s : string) : forall acc,
  (read_digits acc s).2 = (take_digits s).2.
Proof.
  induction s as [|c s IH]; intros acc; [done|]. cbn [read_digits take_digits].
  unfold is_digit. destruct (digit_val c) as [d|]; [|done].
  rewrite IH. by destruct (take_digits s).
Qed.

Lemma take_digits_head (s : string) :
  truthy (take_digits s).1 = true ->
  exists c t, s = String c t /\ is_digit c = true /\
              startswith "0" (take_digits s).1 = Ascii.eqb c "0".
Proof.
  destruct s as [|c s]; [done|]. cbn [take_digits].
  destruct (is_digit c) eqn:E; [|done]. intros _. exists c, s.
  split; [done|]. split; [done|]. destruct (take_digits s) as [a b].
  cbn [fst].
  change (startswith "0" (String c a))
    with (if Ascii.eqb "0" c then true else false).
  rewrite (Ascii.eqb_sym "0" c). by destruct (Ascii.eqb c "0").
Qed.

Lemma read_float_body_app (sign s1 rest : string) (int frac : string) :
  float_body s1 int frac -> delim rest = true ->
  read_float_body sign (s1 +:+ rest) =
    Some (sign +:+ int +:+ "." +:+ frac, rest).
Proof.
  intros (s3 & H1 & H3 & Hp) Hrest. unfold read_float_body.
  rewrite take_digits_app, H1 by done. cbn [fst snd].
  rewrite append_cons. change (Ascii.eqb "." ".") with true. cbn iota.
  rewrite take_digits_app, H3 by done. cbn [fst snd].
  rewrite append_nil_l, Hp, Hrest. reflexivity.
Qed.

Lemma read_float_body_inv (sign s1 text : string) :
  read_float_body sign s1 = Some (text, "") ->
  exists int frac,
    float_body s1 int frac /\ text = sign +:+ int +:+ "." +:+ frac /\
    s1 = int +:+ "." +:+ frac.
Proof.
  unfold read_float_body. intros H.
  pose proof (take_digits_split s1) as Hs1.
  destruct (take_digits s1) as [int s2] eqn:E1.
  destruct s2 as [|dot s3]; [done|].
  destruct (Ascii.eqb_spec dot ".") as [->|]; [|done].
  pose proof (take_digits_split s3) as Hs3.
  destruct (take_digits s3) as [frac rest] eqn:E3.
  destruct (float_repr_parts int frac && delim rest) eqn:Hp; [|done].
  injection H as <- ->. apply andb_true_iff in Hp as [Hp _].
  exists int, frac. split; [by exists s3|]. split; [done|].
  simpl in Hs1, Hs3. rewrite append_nil_r in Hs3. by rewrite Hs1, Hs3.
Qed.

Lemma read_nat_float (s1 rest : string) (int frac : string) :
  float_body s1 int frac -> delim rest = true ->
  read_nat (s1 +:+ rest) = None.
Proof.
  intros (s3 & H1 & H3 & Hp) Hrest.
  unfold float_repr_parts in Hp. rewrite !andb_true_iff in Hp.
  destruct Hp as [[[[[Hi _] Hz] _] _] _].
  pose proof (take_digits_split s1) as Hs. rewrite H1 in Hs. simpl in Hs.
  pose proof (take_digits_head s1) as Hh. rewrite H1 in Hh.
  destruct (Hh Hi) as (c & t & E & Hd & H0). cbn [fst] in H0.
  pose proof (read_digits_rest (s1 +:+ rest) 0) as Hr.
  rewrite take_digits_app, H1 in Hr by done. cbn [fst snd] in Hr.
  rewrite append_cons in Hr.
  unfold read_nat. rewrite E, append_cons.
  destruct (Ascii.eqb_spec c "0") as [->|Hne].
  - rewrite H0 in Hz. rewrite orb_false_r in Hz.
    apply String.eqb_eq in Hz. subst int.
    rewrite E in Hs. injection Hs as ->.
    by rewrite append_nil_l, append_cons.
  - rewrite Hd. change (String c (t +:+ rest)) with (String c t +:+ rest).
    rewrite <- E. destruct (read_digits 0 (s1 +:+ rest)) as [n r].
    simpl in Hr. by rewrite Hr.
Qed.

Lemma float_repr_ok_inv (r : string) :
  float_repr_ok r = true ->
  exists c t, r = String c t /\ num_start c = true /\
    forall rest, delim rest = true ->
      read_number (r +:+ rest) = None /\
      read_float (r +:+ rest) = Some (r, rest).
Proof.
  unfold float_repr_ok. destruct (read_float r) as [[text r0]|] eqn:E; [|done].
  destruct r0; [|done]. intros ->%String.eqb_eq.
  destruct r as [|c t]; [done|]. exists c, t. split; [done|].
  unfold read_float in E. destruct (Ascii.eqb_spec c "-") as [->|Hne].
  - split; [done|]. intros rest Hrest.
    destruct (read_float_body_inv _ _ _ E) as (int & frac & Hb & Ht & _).
    rewrite append_cons. unfold read_number, read_float.
    change (Ascii.eqb "-" "-") with true. cbn iota.
    rewrite (read_nat_float t rest int frac) by done.
    split; [done|]. rewrite (read_float_body_app "-" t rest int frac) by done.
    by rewrite <- Ht.
  - destruct (read_float_body_inv _ _ _ E) as (int & frac & Hb & Ht & _).
    assert (Hd : is_digit c = true).
    { destruct Hb as (s3 & H1 & _ & Hp).
      unfold float_repr_parts in Hp. rewrite !andb_true_iff in Hp.
      destruct Hp as [[[[[Hi _] _] _] _] _].
      pose proof (take_digits_head (String c t)) as Hh. rewrite H1 in Hh.
      destruct (Hh Hi) as (c' & t' & Ec & Hd & _). by injection Ec as <- <-. }
    split; [unfold num_start; by rewrite Hd|]. intros rest Hrest.
    pose proof (read_nat_float (String c t) rest int frac Hb Hrest) as Hn.
    pose proof (read_float_body_app "" (String c t) rest int frac Hb Hrest)
      as Hf.
    rewrite append_cons in Hn, Hf |- *. unfold read_number, read_float.
    apply Ascii.eqb_neq in Hne. rewrite Hne, Hn, Hf.
    split; [done|]. by rewrite <- Ht.
Qed.

Lemma read_value_float (fuel : nat) (r rest : string) :
  float_repr_ok r = true -> delim rest = true ->
  read_value (S fuel) (r +:+ rest) = Some (JFloat r, rest).
Proof.
  intros Hok Hrest. destruct (float_repr_ok_inv r Hok) as (c & t & E & Hc & H).
  destruct (H rest Hrest) as [Hn Hf]. rewrite E, append_cons in Hn, Hf |- *.
  by rewrite read_value_num_start, Hn, Hf.
Qed.

Lemma read_string_char (c : ascii) (fuel : nat) (t : string) :
  read_string (S fuel) (escape_char c +:+ t) =
    match read_string fuel t with
    | Some (x, r) => Some (String c x, r)
    | None => None
    end.
Proof. destruct c as [[] [] [] [] [] [] [] []]; reflexivity. Qed.

Lemma read_string_escape (s : string) : forall fuel t,
  String.length s < fuel ->
  read_string fuel (escape s +:+ String (ascii_of_N 34) t) = Some (s, t).
Proof.
  induction s as [|c s IH]; intros fuel t Hlen.
  - destruct fuel; [simpl in Hlen; lia|]. reflexivity.
  - destruct fuel; [simpl in Hlen; lia|].
    cbn [escape]. rewrite append_assoc, read_string_char.
    rewrite IH; [done|]. simpl in Hlen. lia.
Qed.

Lemma length_escape_char (c : ascii) : 1 <= String.length (escape_char c).
Proof. destruct c as [[] [] [] [] [] [] [] []]; vm_compute; lia. Qed.

Lemma length_escape (s : string) :
  String.length s <= String.length (escape s).
Proof.
  induction s as [|c s IH]; [done|]. cbn [escape].
  rewrite length_append. pose proof (length_escape_char c). simpl. lia.
Qed.

Lemma quote_append (s rest : string) :
  quote s +:+ rest =
    String (ascii_of_N 34) (escape s +:+ String (ascii_of_N 34) rest).
Proof. unfold quote. by rewrite append_cons, append_assoc. Qed.

Lemma read_value_string (fuel : nat) (s rest : string) :
  read_value (S fuel) (quote s +:+ rest) = Some (JStr s, rest).
Proof.
  rewrite quote_append.
  change (read_value (S fuel) (String (ascii_of_N 34) ?x))
    with (match read_string (S (String.length x)) x with
          | Some (t, r) => Some (JStr t, r)
          | None => None
          end).
  rewrite read_string_escape; [done|].
  rewrite length_append. pose proof (length_escape s). lia.
Qed.

Lemma read_value_space (fuel : nat) (s : string) :
  read_value fuel (String " " s) = read_value fuel s.
Proof. destruct fuel; reflexivity. Qed.

Lemma read_elems_eq (fuel : nat) (acc : list json) (s : string) :
  read_elems (S fuel) acc s =
    match read_value fuel s with
    | Some (v, r) =>
        match skip_ws r with
        | String d r' =>
            if (N_of_ascii d =? 44)%N then read_elems fuel (acc ++ [v]) r'
            else if (N_of_ascii d =? 93)%N then Some (JArr (acc ++ [v]), r')
            else None
        | EmptyString => None
        end
    | None => None
    end.
Proof. reflexivity. Qed.

Lemma read_elems_space (fuel : nat) (acc : list json) (s : string) :
  read_elems fuel acc (String " " s) = read_elems fuel acc s.
Proof.
  destruct fuel; [done|]. by rewrite !read_elems_eq, read_value_space.
Qed.

Lemma read_members_eq (fuel : nat) (acc : dict json) (q : ascii)
    (s1 : string) :
  is_ws q = false ->
  read_members (S fuel) acc (String q s1) =
    if (N_of_ascii q =? 34)%N then
      match read_string (S (String.length s1)) s1 with
      | Some (k, r) =>
          match skip_ws r with
          | String colon r1 =>
              if (N_of_ascii colon =? 58)%N then
                match read_value fuel r1 with
                | Some (v, r2) =>
                    match skip_ws r2 with
                    | String d r3 =>
                        if (N_of_ascii d =? 44)%N
                        then read_members fuel (dict_set k v acc) r3
                        else if (N_of_ascii d =? 125)%N
                        then Some (JObj (dict_set k v acc), r3)
                        else None
                    | EmptyString => None
                    end
                | None => None
                end
              else None
          | EmptyString => None
          end
      | None => None
      end
    else None.
Proof. intros Hq. cbn [read_members skip_ws]. by rewrite Hq. Qed.

Lemma read_members_space (fuel : nat) (acc : dict json) (s : string) :
  read_members fuel acc (String " " s) = read_members fuel acc s.
Proof. destruct fuel; reflexivity. Qed.

Lemma num_start_value_start (c : ascii) :
  num_start c = true -> value_start c = true.
Proof.
  destruct c as [[] [] [] [] [] [] [] []]; intros H;
    try discriminate H; reflexivity.
Qed.

Lemma dumps_start (v : json) :
  json_wf v = true ->
  exists c t, dumps v = String c t /\ value_start c = true.
Proof.
  intros Hwf.
  destruct v as [|[]|n|r|s|l|l]; try (eexists _, _; split; reflexivity).
  - destruct (str_of_int_start n) as (c & t & E & Hc).
    exists c, t. split; [done|]. by apply num_start_value_start.
  - destruct (float_repr_ok_inv r Hwf) as (c & t & E & Hc & _).
    exists c, t. split; [done|]. by apply num_start_value_start.
Qed.

Lemma skip_ws_start (c : ascii) (t : string) :
  value_start c = true -> skip_ws (String c t) = String c t.
Proof.
  unfold value_start. rewrite !andb_true_iff, !negb_true_iff.
  intros [[Hw _] _]. simpl. by rewrite Hw.
Qed.

Lemma read_value_dumps_step (x : json) (fuel : nat) (rest : string)
    (c : ascii) :
  reads_back x -> json_wf x = true -> json_size x <= fuel ->
  delim (String c rest) = true -> is_ws c = false ->
  read_value fuel (dumps x +:+ String c rest) = Some (x, String c rest) /\
  skip_ws (String c rest) = String c rest.
Proof.
  intros Hx Hwf Hsize Hd Hc. split; [by apply Hx|]. simpl. by rewrite Hc.
Qed.

Lemma read_elems_dumps (l : list json) : forall acc fuel rest,
  l <> [] -> Forall reads_back l -> forallb json_wf l = true ->
  list_sum (map (fun x => S (json_size x)) l) <= fuel ->
  read_elems fuel acc (join ", " (map dumps l) +:+ "]" +:+ rest) =
    Some (JArr (acc ++ l), rest).
Proof.
  induction l as [|x l IH]; intros acc fuel rest Hne Hall Hwf Hsize; [done|].
  inversion Hall as [|? ? Hx Hl]; subst.
  cbn [forallb] in Hwf. apply andb_true_iff in Hwf as [Hwx Hwl].
  cbn [map] in Hsize. unfold list_sum in Hsize. cbn [fold_right] in Hsize.
  fold (list_sum (map (fun x => S (json_size x)) l)) in Hsize.
  destruct fuel as [|fuel]; [lia|]. rewrite read_elems_eq.
  destruct l as [|y l].
  - cbn [map join].
    change ("]" +:+ rest) with (String "]" rest).
    destruct (read_value_dumps_step x fuel rest "]") as [-> ->];
      [done | done | simpl in Hsize; lia | done | done |].
    reflexivity.
  - change (join ", " (map dumps (x :: y :: l)))
      with (dumps x +:+ ", " +:+ join ", " (map dumps (y :: l))).
    rewrite !append_assoc.
    change (", " +:+ ?t) with (String "," (String " " t)).
    destruct (read_value_dumps_step x fuel
                (String " " (join ", " (map dumps (y :: l)) +:+ "]" +:+ rest))
                ",") as [-> ->];
      [done | done | lia | done | done |].
    change (N_of_ascii "," =? 44)%N with true. cbn iota.
    rewrite read_elems_space, IH; [by rewrite <- app_assoc|done..|lia].
Qed.

Lemma read_members_dumps (l : dict json) : forall acc fuel rest,
  l <> [] -> Forall (fun kv => reads_back kv.2) l ->
  unique_keys l = true -> forallb (fun kv => json_wf kv.2) l = true ->
  (forall k v, (k, v) ∈ l -> dict_get k acc = None) ->
  list_sum (map (fun kv => S (json_size kv.2)) l) <= fuel ->
  read_members fuel acc
    (join ", " (map (fun kv => quote kv.1 +:+ ": " +:+ dumps kv.2) l) +:+
     "}" +:+ rest) = Some (JObj (acc ++ l), rest).
Proof.
  induction l as [|[k v] l IH];
    intros acc fuel rest Hne Hall Huniq Hwf Hacc Hsize; [done|].
  inversion Hall as [|? ? Hv Hl]; subst. simpl in Hv.
  cbn [forallb] in Hwf. apply andb_true_iff in Hwf as [Hwv Hwl].
  cbn [unique_keys] in Huniq.
  destruct (dict_get k l) eqn:Hkl; [done|].
  cbn [map] in Hsize. unfold list_sum in Hsize. cbn [fold_right snd] in Hsize.
  fold (list_sum (map (fun kv : string * json => S (json_size kv.2)) l))
    in Hsize.
  destruct fuel as [|fuel]; [lia|].
  assert (Hk : dict_get k acc = None) by (eapply Hacc; left).
  assert (Hkey : forall t,
    read_members (S fuel) acc (quote k +:+ ": " +:+ dumps v +:+ t) =
    match read_value fuel (dumps v +:+ t) with
    | Some (v', r2) =>
        match skip_ws r2 with
        | String d r3 =>
            if (N_of_ascii d =? 44)%N
            then read_members fuel (dict_set k v' acc) r3
            else if (N_of_ascii d =? 125)%N
            then Some (JObj (dict_set k v' acc), r3)
            else None
        | EmptyString => None
        end
    | None => None
    end).
  { intros t. rewrite quote_append, read_members_eq by done.
    change (N_of_ascii (ascii_of_N 34) =? 34)%N with true. cbn iota.
    rewrite read_string_escape.
    2:{ rewrite length_append. pose proof (length_escape k). lia. }
    change (": " +:+ dumps v +:+ t)
      with (String ":" (String " " (dumps v +:+ t))).
    cbn [skip_ws]. change (is_ws ":") with false. cbn iota.
    change (N_of_ascii ":" =? 58)%N with true. cbn iota.
    by rewrite read_value_space. }
  destruct l as [|[k' v'] l].
  - cbn [map join fst snd]. rewrite !append_assoc, Hkey.
    change ("}" +:+ rest) with (String "}" rest).
    destruct (read_value_dumps_step v fuel rest "}") as [-> ->];
      [done | done | lia | done | done |].
    change (N_of_ascii "}" =? 44)%N with false.
    change (N_of_ascii "}" =? 125)%N with true. cbn iota.
    by rewrite dict_set_fresh.
  - change (join ", " (map (fun kv => quote kv.1 +:+ ": " +:+ dumps kv.2)
                         ((k, v) :: (k', v') :: l)))
      with ((quote k +:+ ": " +:+ dumps v) +:+ ", " +:+
            join ", " (map (fun kv => quote kv.1 +:+ ": " +:+ dumps kv.2)
                         ((k', v') :: l))).
    rewrite !append_assoc, Hkey.
    change (", " +:+ ?t) with (String "," (String " " t)).
    match goal with
    | |- context [dumps v +:+ String "," ?t] =>
        destruct (read_value_dumps_step v fuel t ",") as [-> ->];
          [done | done | lia | done | done |]
    end.
    change (N_of_ascii "," =? 44)%N with true. cbn iota.
    rewrite read_members_space, dict_set_fresh by done.
    rewrite IH; [by rewrite <- app_assoc | done | done | done | done | | lia].
    intros k0 v0 Hin. rewrite dict_get_app_fresh.
    + simpl. destruct (String.eqb_spec k0 k) as [->|]; [|done].
      by apply dict_get_None_not_in with (v := v0) in Hkl.
    + eapply Hacc. right. exact Hin.
Qed.

Lemma read_value_dumps (v : json) : reads_back v.
Proof.
  induction v as [|b|n|r|s|l IH|l IH] using json_induction;
    intros Hwf fuel rest Hsize Hrest;
    (destruct fuel as [|fuel]; [simpl in Hsize; lia|]).
  - reflexivity.
  - destruct b; reflexivity.
  - by apply read_value_number.
  - by apply read_value_float.
  - apply read_value_string.
  - cbn [dumps json_wf json_size] in *. rewrite !append_assoc.
    change ("[" +:+ ?t) with (String "[" t).
    destruct l as [|x l]; [reflexivity|].
    destruct (dumps_start x) as (c & t & E & Hc).
    { cbn [forallb] in Hwf. by apply andb_true_iff in Hwf as [? _]. }
    assert (Hskip : exists u,
      join ", " (map dumps (x :: l)) +:+ "]" +:+ rest = String c u).
    { destruct l; cbn [map join]; rewrite E, ?append_assoc, append_cons;
        by eexists. }
    destruct Hskip as [u Hu].
    pose proof (read_elems_dumps (x :: l) [] fuel rest) as Hel.
    rewrite Hu in Hel |- *.
    unfold value_start in Hc. rewrite !andb_true_iff, !negb_true_iff in Hc.
    destruct Hc as [[Hw Hb] _].
    change (read_value (S fuel) (String "[" (String c u)))
      with (match skip_ws (String c u) with
            | String d r =>
                if (N_of_ascii d =? 93)%N then Some (JArr [], r)
                else read_elems fuel [] (String c u)
            | EmptyString => None
            end).
    cbn [skip_ws]. rewrite Hw, Hb. apply Hel; [done..|lia].
  - cbn [dumps json_wf json_size] in *. rewrite !append_assoc.
    change ("{" +:+ ?t) with (String "{" t).
    destruct l as [|[k x] l]; [reflexivity|].
    apply andb_true_iff in Hwf as [Huniq Hwf].
    assert (Hskip : exists u,
      join ", " (map (fun kv => quote kv.1 +:+ ": " +:+ dumps kv.2)
                   ((k, x) :: l)) +:+ "}" +:+ rest =
      String (ascii_of_N 34) u).
    { destruct l; cbn [map join fst]; rewrite ?append_assoc, quote_append;
        by eexists. }
    destruct Hskip as [u Hu].
    pose proof (read_members_dumps ((k, x) :: l) [] fuel rest) as Hmem.
    rewrite Hu in Hmem |- *.
    change (read_value (S fuel) (String "{" (String (ascii_of_N 34) u)))
      with (read_members fuel [] (String (ascii_of_N 34) u)).
    apply Hmem; [done..|lia].
Qed.

Lemma dumps_nonempty (v : json) :
  json_wf v = true -> 1 <= String.length (dumps v).
Proof.
  intros Hwf. destruct (dumps_start v Hwf) as (c & t & -> & _). simpl. lia.
Qed.

Lemma sum_le_length_join {A : Type} (f : A -> string) (g : A -> nat)
    (l : list A) :
  Forall (fun x => g x <= 2 * String.length (f x) + 1) l ->
  list_sum (map g l) <= 2 * String.length (join ", " (map f l)) + 2.
Proof.
  induction l as [|x l IH]; intros Hall; [simpl; lia|].
  inversion Hall as [|? ? Hx Hl]; subst. specialize (IH Hl).
  cbn [map] in IH |- *. unfold list_sum in IH |- *. cbn [fold_right] in IH |- *.
  destruct l as [|y l].
  - simpl. lia.
  - change (join ", " (f x :: map f (y :: l)))
      with (f x +:+ ", " +:+ join ", " (map f (y :: l))).
    rewrite !length_append. cbn [map] in IH |- *.
    change (String.length ", ") with 2. lia.
Qed.

Lemma json_size_le_length (v : json) :
  json_wf v = true -> json_size v <= 2 * String.length (dumps v).
Proof.
  induction v as [|b|n|r|s|l IH|l IH] using json_induction; intros Hwf.
  - pose proof (dumps_nonempty JNull Hwf). cbn [json_size]. lia.
  - pose proof (dumps_nonempty (JBool b) Hwf). cbn [json_size]. lia.
  - pose proof (dumps_nonempty (JNum n) Hwf). cbn [json_size]. lia.
  - pose proof (dumps_nonempty (JFloat r) Hwf). cbn [json_size]. lia.
  - pose proof (dumps_nonempty (JStr s) Hwf). cbn [json_size]. lia.
  - cbn [json_size dumps json_wf] in *. rewrite !length_append.
    pose proof (sum_le_length_join dumps (fun x => S (json_size x)) l) as H.
    change (String.length "[") with 1. change (String.length "]") with 1.
    assert (list_sum (map (fun x => S (json_size x)) l) <=
            2 * String.length (join ", " (map dumps l)) + 2); [|lia].
    apply H. clear H. induction l as [|x l IHl]; [constructor|].
    inversion IH as [|? ? Hx Hl]; subst. cbn [forallb] in Hwf.
    apply andb_true_iff in Hwf as [Hwx Hwl].
    constructor; [|by apply IHl]. specialize (Hx Hwx). lia.
  - cbn [json_size dumps json_wf] in *. rewrite !length_append.
    apply andb_true_iff in Hwf as [_ Hwf].
    pose proof (sum_le_length_join
                  (fun kv : string * json => quote kv.1 +:+ ": " +:+ dumps kv.2)
                  (fun kv => S (json_size kv.2)) l) as H.
    change (String.length "{") with 1. change (String.length "}") with 1.
    assert (list_sum (map (fun kv : string * json => S (json_size kv.2)) l) <=
            2 * String.length
                  (join ", "
                     (map (fun kv : string * json =>
                             quote kv.1 +:+ ": " +:+ dumps kv.2) l)) + 2);
      [|lia].
    apply H. clear H. induction l as [|kv l IHl]; [constructor|].
    inversion IH as [|? ? Hx Hl]; subst. cbn [forallb] in Hwf.
    apply andb_true_iff in Hwf as [Hwx Hwl].
    constructor; [|by apply IHl]. specialize (Hx Hwx).
    rewrite !length_append. lia.
Qed.

(** [json.loads(json.dumps(v))] is [v], for every value of the model
    whose objects have distinct keys. *)
Lemma loads_dumps (v : json) : json_wf v = true -> loads (dumps v) = Some v.
Proof.
  intros Hwf. unfold loads.
  pose proof (read_value_dumps v Hwf (2 * String.length (dumps v) + 2) "")
    as H.
  rewrite append_nil_r in H. rewrite H; [done| |done].
  pose proof (json_size_le_length v Hwf). lia.
Qed.

End JsonFacts.

(** ** The table store *)

Module StoreFacts.
Import Store.

Section Database.
Context {codec : Codec}.

Lemma truthy_key_file db table key : truthy (key_file db table key) = true.
Proof.
  unfold key_file. apply truthy_path_join. rewrite truthy_append.
  apply orb_true_r.
Qed.

Lemma set_succeeds db table key value :
  set db table key value =
    Ok (mkDatabase (base_path db)
          (<[table := dict_set key (key_file db table key)
                        (default [] (tables db !! table))]> (tables db))
          (<[index_file db table :=
               json_dump (index_json
                 (dict_set key (key_file db table key)
                    (default [] (tables db !! table))))]>
             (<[key_file db table key := json_dump value]> (disk db)))).
Proof.
  unfold set, save_index, with_tables, with_disk, index_file. simpl.
  destruct (tables db !! table) as [idx|] eqn:E; simpl.
  - rewrite E. simpl. by simplify_map_eq.
  - simplify_map_eq. by rewrite insert_insert_eq.
Qed.

Lemma delete_result db table key :
  delete db table key =
    match tables db !! table with
    | None => Ok db
    | Some idx =>
        let tables' := <[table := dict_remove key idx]> (tables db) in
        match dict_get key idx with
        | Some file_path =>
            if truthy file_path && path_exists db file_path then
              Ok (mkDatabase (base_path db) tables'
                    (<[index_file db table :=
                         json_dump (index_json (dict_remove key idx))]>
                       (base.delete file_path (disk db))))
            else Ok (mkDatabase (base_path db) tables' (disk db))
        | None => Ok (mkDatabase (base_path db) tables' (disk db))
        end
    end.
Proof.
  unfold delete, dict_pop, save_index, with_tables, with_disk, index_file,
    path_exists.
  destruct (tables db !! table) as [idx|] eqn:E; [|done]. simpl.
  destruct (dict_get key idx) as [p|]; [|done].
  destruct (truthy p && _); [|done]. by simplify_map_eq.
Qed.

Lemma delete_absent db table key :
  index_entry db table key = None -> delete db table key = Ok db.
Proof.
  intros H. rewrite delete_result. unfold index_entry in H.
  destruct (tables db !! table) as [idx|] eqn:E; [|done]. simpl.
  rewrite H, dict_remove_absent, insert_id by done. by destruct db.
Qed.

Lemma run_op_frame db db' table key o :
  index_entry db table key = None -> ~ writes table key o ->
  run_op db o = Ok db' -> index_entry db' table key = None.
Proof.
  intros Hnone Hw Hrun. destruct o as [t k v|t k]; simpl in Hw, Hrun.
  - rewrite set_succeeds in Hrun. injection Hrun as <-.
    unfold index_entry in Hnone |- *. simpl.
    destruct (decide (t = table)) as [->|Ht].
    + rewrite lookup_insert_eq.
      rewrite dict_get_set_ne by (intros ->; apply Hw; split; reflexivity).
      by destruct (tables db !! table).
    + by rewrite lookup_insert_ne.
  - rewrite delete_result in Hrun. unfold index_entry in Hnone |- *.
    destruct (tables db !! t) as [idx|] eqn:E; [|by injection Hrun as <-].
    assert (Hgoal : match <[t := dict_remove k idx]> (tables db) !! table with
                    | Some idx0 => dict_get key idx0
                    | None => None
                    end = None).
    { destruct (decide (t = table)) as [->|Ht].
      - rewrite lookup_insert_eq. apply dict_get_remove_None.
        by rewrite E in Hnone.
      - by rewrite lookup_insert_ne. }
    simpl in Hrun. destruct (dict_get k idx) as [p|].
    + destruct (truthy p && _); by injection Hrun as <-.
    + by injection Hrun as <-.
Qed.

Lemma run_frame ops : forall db db' table key,
  index_entry db table key = None ->
  Forall (fun o => ~ writes table key o) ops ->
  run db ops = Ok db' -> index_entry db' table key = None.
Proof.
  induction ops as [|o ops IH]; intros db db' table key Hnone Hall Hrun.
  - simpl in Hrun. by injection Hrun as <-.
  - simpl in Hrun. inversion Hall as [|? ? Ho Hops]; subst.
    destruct (run_op db o) as [db1|e] eqn:E; [|done].
    eapply IH; [|done..]. eapply run_op_frame; eauto.
Qed.

(** C1, as amended.  A [set] that returns has ended by writing
    [index.json], so the file holds the dump of the in-memory index of the
    table.  After a [delete] that returns: when the key was indexed under
    a non-empty path whose file exists, [index.json] was rewritten and
    holds the dump of the index that is left; when the key was not
    indexed, the store (index and files) is exactly as it was. *)
Theorem index_synced_after_set_delete (db : Database) (table key : string) :
  (forall value db',
      set db table key value = Ok db' -> index_synced db' table) /\
  (forall db',
      delete db table key = Ok db' ->
      (forall file_path,
          index_entry db table key = Some file_path ->
          truthy file_path = true -> path_exists db file_path = true ->
          index_synced db' table) /\
      (index_entry db table key = None -> db' = db)).
Proof.
  split.
  - intros value db'. rewrite set_succeeds. intros [= <-].
    eexists. simpl. split; [apply lookup_insert_eq|].
    unfold index_file. simpl. apply lookup_insert_eq.
  - intros db'. rewrite delete_result.
    unfold index_entry, index_synced, index_file.
    destruct (tables db !! table) as [idx|] eqn:E.
    + simpl. destruct (dict_get key idx) as [p|] eqn:G.
      * destruct (truthy p && path_exists db p) eqn:B.
        -- intros [= <-]. split; [|done].
           intros _ _ _ _. eexists. simpl.
           split; [apply lookup_insert_eq|apply lookup_insert_eq].
        -- intros [= <-]. split; [|done].
           intros q [= <-] Ht He. by rewrite Ht, He in B.
      * intros [= <-]. split; [done|]. intros _.
        rewrite dict_remove_absent, insert_id by done. by destruct db.
    + intros [= <-]. by split.
Qed.

(** A step of the model: [set] followed by [get] returns the value, when
    [json.load] reads back what [json.dump] wrote for it and the path of
    the value file of [key] is not the path of the table's
    [index.json]. *)
Lemma set_get_codec (db : Database) (table key : string) (value : json) :
  key_file db table key <> index_file db table ->
  json_load (json_dump value) = Some value ->
  exists db', set db table key value = Ok db' /\
              get db' table key = Ok value.
Proof.
  intros Hne Hrt. eexists. split; [apply set_succeeds|].
  unfold get. simpl. rewrite lookup_insert_eq, dict_get_set_eq.
  rewrite truthy_key_file. simpl.
  rewrite lookup_insert_ne by done. rewrite lookup_insert_eq.
  by rewrite Hrt.
Qed.

(** C6: in a store where [key] was never indexed for [table], and after
    any sequence of [set] and [delete] calls none of which is a [set] of
    that key in that table, [delete(table, key)] returns and leaves the
    store as it was: the same in-memory index and the same files, so
    [index.json] has the bytes it had before the call. *)
Theorem delete_never_written (db0 db : Database) (ops : list op)
    (table key : string) :
  index_entry db0 table key = None ->
  Forall (fun o => ~ writes table key o) ops ->
  run db0 ops = Ok db ->
  exists db',
    delete db table key = Ok db' /\
    tables db' = tables db /\
    disk db' = disk db /\
    disk db' !! index_file db table = disk db !! index_file db table.
Proof.
  intros H0 Hops Hrun. exists db.
  split; [|done]. apply delete_absent. eapply run_frame; eauto.
Qed.

End Database.

End StoreFacts.

(** ** The response writer *)

Module ResponseFacts.
Import Http.


Lemma written_app (w1 w2 : writer) :
  written (w1 ++ w2) = written w1 ++ written w2.
Proof.
  induction w1 as [|e w1 IH]; [done|].
  destruct e; simpl; rewrite IH; by rewrite ?app_assoc.
Qed.

Lemma closes_app (w1 w2 : writer) : closes (w1 ++ w2) = closes w1 + closes w2.
Proof.
  induction w1 as [|e w1 IH]; [done|]. destruct e; simpl; by rewrite IH.
Qed.


(** X21: on a path that does not exist ([open] raises
    [FileNotFoundError]) [sendFile] answers through [send], which closes
    the stream, and then closes it again in its [finally] block; it raises
    nothing. *)
Lemma sendFile_missing (files : gmap string (res bytes)) (w : writer)
    (file_path content_type : string) :
  read_file files file_path = Raise FileNotFoundError ->
  sendFile files w file_path content_type =
    (send w "File not found" 404 "text/plain" ++ [Close], None) /\
  closes (sendFile files w file_path content_type).1 = closes w + 2.
Proof.
  intros H. unfold sendFile. rewrite H. split; [done|].
  unfold send. cbn [fst]. rewrite !closes_app. simpl. lia.
Qed.

(** X23: on a path that [open] refuses with another exception (a
    directory, a file without permission) [sendFile] sends nothing, not
    even the 404: its [finally] block closes the stream once and the
    exception leaves the call. *)
Lemma sendFile_refused (files : gmap string (res bytes)) (w : writer)
    (file_path content_type : string) (e : exn) :
  read_file files file_path = Raise e -> e <> FileNotFoundError ->
  sendFile files w file_path content_type = (w ++ [Close], Some e) /\
  written (w ++ [Close]) = written w /\
  closes (w ++ [Close]) = closes w + 1.
Proof.
  intros H He. unfold sendFile. rewrite H. split.
  - by destruct e.
  - rewrite written_app, closes_app. simpl. by rewrite app_nil_r.
Qed.

(** X20: when the file is there, [sendFile] writes the status line, the
    headers and the content, closes the stream once and raises nothing. *)
Lemma sendFile_found (files : gmap string (res bytes)) (w : writer)
    (file_path content_type : string) (content : bytes) :
  files !! file_path = Some (Ok content) ->
  written (sendFile files w file_path content_type).1 =
    written w ++ encode ("HTTP/1.1 200 OK" +:+ crlf) ++
    encode ("Content-Type: " +:+ content_type +:+ crlf +:+
            "Content-Length: " +:+ str_of_int (Z.of_nat (length content)) +:+
            crlf +:+ crlf) ++ content /\
  closes (sendFile files w file_path content_type).1 = closes w + 1 /\
  (sendFile files w file_path content_type).2 = None.
Proof.
  intros H.
  assert (Hr : read_file files file_path = Ok content).
  { unfold read_file. by rewrite H. }
  unfold sendFile. rewrite Hr. cbv beta iota zeta delta [fst snd].
  split; [|split; [|done]].
  - rewrite !written_app. simpl. by rewrite !app_nil_r.
  - rewrite !closes_app. simpl. lia.
Qed.

(** C7 at a path that does not exist: the response is the 404 with body
    [File not found], nothing is raised, and [close()] is called twice on
    the stream. *)
Theorem sendFile_missing_closes_twice :
  sendFile ∅ [] "/no/such/file" "text/html" =
    ([Write (encode ("HTTP/1.1 404 OK" +:+ crlf +:+
                     "Content-Type: text/plain" +:+ crlf +:+
                     "Content-Length: 14" +:+ crlf +:+ crlf +:+
                     "File not found"));
      Drain; Close; Close], None) /\
  closes (sendFile ∅ [] "/no/such/file" "text/html").1 = 2.
Proof. split; vm_compute; reflexivity. Qed.

End ResponseFacts.

(** ** The wire parser *)

Module ParserFacts.
Import Http.

Lemma parse_headers_fold (lines : list string) (headers : dict string) :
  (parse_headers lines headers).1 =
    fold_left add_header (header_block lines) headers.
Proof.
  revert headers. induction lines as [|line rest IH]; intros headers; [done|].
  simpl. destruct (truthy line); [apply IH|done].
Qed.

Lemma add_header_other (headers : dict string) (line k : string) :
  header_key line <> Some k ->
  dict_get k (add_header headers line) = dict_get k headers.
Proof.
  unfold header_key, add_header.
  destruct (split_once ": " line) as [[k' v']|]; [|done]. simpl.
  intros H. apply dict_get_set_ne. congruence.
Qed.

Lemma fold_add_header_other (post : list string) (headers : dict string)
    (k : string) :
  Forall (fun l => header_key l <> Some k) post ->
  dict_get k (fold_left add_header post headers) = dict_get k headers.
Proof.
  revert headers. induction post as [|l post IH]; intros headers H; [done|].
  inversion H as [|? ? Hl Hpost]; subst. simpl.
  rewrite IH by done. by apply add_header_other.
Qed.

Lemma request_headers_fold (request_text : string) :
  request_headers request_text =
    fold_left add_header (header_block (tl (split crlf request_text))) [].
Proof.
  unfold request_headers, parse_request.
  rewrite <- parse_headers_fold.
  by destruct (parse_headers (tl (split crlf request_text)) []).
Qed.

(** C10: when [line] is the last header line, before the empty line, that
    sets [k], the header mapping binds [k] to the value of [line],
    whatever the lines before it set. *)
Theorem last_header_wins (request_text : string) (pre post : list string)
    (line k v : string) :
  header_block (tl (split crlf request_text)) = pre ++ line :: post ->
  split_once ": " line = Some (k, v) ->
  Forall (fun l => header_key l <> Some k) post ->
  dict_get k (request_headers request_text) = Some v.
Proof.
  intros Hblock Hline Hpost.
  rewrite request_headers_fold, Hblock, fold_left_app. simpl.
  rewrite fold_add_header_other by done.
  unfold add_header. rewrite Hline. apply dict_get_set_eq.
Qed.

End ParserFacts.

(** ** The router *)

Module RouterFacts.
Import Http.

Lemma all_chars_impl (p q : ascii -> bool) (s : string) :
  (forall c, p c = true -> q c = true) ->
  all_chars p s = true -> all_chars q s = true.
Proof.
  intros Hpq. induction s as [|c s IH]; [done|]. simpl.
  intros [Hc Hs]%andb_true_iff. rewrite (Hpq c Hc). simpl. auto.
Qed.

Lemma span_all (p : ascii -> bool) (s t : string) :
  all_chars p s = true -> stops p t = true -> span p (s +:+ t) = (s, t).
Proof.
  intros Hs Ht. induction s as [|c s IH].
  - rewrite append_nil_l. destruct t as [|d t]; [done|]. simpl in *.
    by destruct (p d).
  - simpl in Hs. apply andb_true_iff in Hs as [Hc Hs].
    rewrite append_cons. simpl. rewrite Hc, IH by done. done.
Qed.

Lemma sub_go_skip (a b : string) (k : nat) :
  sub_go (String.length a + k) (a +:+ b) = sub_go k b.
Proof. induction a as [|c a IH]; [done|]. rewrite append_cons. apply IH. Qed.

Lemma plain_char_not (c d : ascii) :
  plain_char d = false -> plain_char c = true -> Ascii.eqb c d = false.
Proof.
  intros Hd Hc. destruct (Ascii.eqb_spec c d) as [->|]; [|done]. congruence.
Qed.

Lemma sub_go_lit (text rest : string) :
  all_chars plain_char text = true ->
  sub_go 0 (text +:+ rest) = text +:+ sub_go 0 rest.
Proof.
  induction text as [|c text IH]; [done|]. simpl.
  intros [Hc Ht]%andb_true_iff. rewrite !append_cons. simpl.
  rewrite (plain_char_not c "[") by done. by rewrite IH.
Qed.

Lemma identifier_nonempty (name : string) :
  is_identifier name = true -> exists c name', name = String c name'.
Proof. destruct name as [|c name']; [done|]. eauto. Qed.

Lemma sub_go_param (name rest : string) :
  is_identifier name = true -> all_chars is_word name = true ->
  sub_go 0 ("[" +:+ name +:+ "]" +:+ rest) =
    "(?P<" +:+ name +:+ ">[^/]+)" +:+ sub_go 0 rest.
Proof.
  intros Hid Hw. destruct (identifier_nonempty name Hid) as (c & name' & E).
  change ("[" +:+ name +:+ "]" +:+ rest)
    with (String "[" (name +:+ String "]" rest)).
  cbn [sub_go bracket_name]. rewrite Ascii.eqb_refl.
  rewrite span_all by done. rewrite E at 1 2. rewrite Ascii.eqb_refl.
  rewrite <- E. do 2 f_equal.
  replace (S (String.length name)) with (String.length name + 1) by lia.
  by rewrite sub_go_skip.
Qed.

Lemma re_sub_segs (segs : list seg) :
  segs_ok segs = true -> re_sub (pattern_text segs) = regex_text segs.
Proof.
  unfold re_sub. induction segs as [|[text|name value] r IH]; [done|..];
    cbn [segs_ok pattern_text regex_text].
  - intros [Ht Hr]%andb_true_iff. rewrite sub_go_lit by done. by rewrite IH.
  - rewrite !andb_true_iff. intros [[[[[[Hid Hw] _] _] _] _] Hr].
    rewrite sub_go_param by done. by rewrite IH.
Qed.

Lemma plain_char_inv (c : ascii) :
  plain_char c = true ->
  is_special c = false /\ Ascii.eqb c "^" = false /\ Ascii.eqb c "$" = false.
Proof.
  unfold plain_char. rewrite !andb_true_iff, !negb_true_iff. tauto.
Qed.

Lemma no_quant_plain (c : ascii) (t : string) :
  plain_char c = true -> no_quant (String c t) = true.
Proof.
  intros H. simpl.
  by rewrite (plain_char_not c "*"), (plain_char_not c "+"),
    (plain_char_not c "?").
Qed.

Lemma no_quant_lit (text t : string) :
  all_chars plain_char text = true -> no_quant t = true ->
  no_quant (text +:+ t) = true.
Proof.
  destruct text as [|c text]; [done|]. intros H _. simpl in H.
  apply andb_true_iff in H as [Hc _]. rewrite append_cons.
  by apply no_quant_plain.
Qed.

Lemma no_quant_regex_text (segs : list seg) :
  segs_ok segs = true -> no_quant (regex_text segs +:+ "$") = true.
Proof.
  induction segs as [|[text|name value] r IH]; [done|..];
    cbn [segs_ok regex_text].
  - intros [Ht Hr]%andb_true_iff. rewrite append_assoc.
    apply no_quant_lit; auto.
  - done.
Qed.

Lemma fmap_app_nil {A : Type} (o : option (list A)) : app [] <$> o = o.
Proof. by destruct o. Qed.

Lemma fmap_cons_app {A : Type} (x : A) (l : list A) (o : option (list A)) :
  cons x <$> (app l <$> o) = app (x :: l) <$> o.
Proof. by destruct o. Qed.

Lemma parse_lit (text : string) : forall fuel seen t,
  all_chars plain_char text = true -> no_quant t = true ->
  String.length (text +:+ t) < fuel ->
  parse fuel seen (text +:+ t) =
    app (lit_items text) <$> parse (fuel - String.length text) seen t.
Proof.
  induction text as [|c text IH]; intros fuel seen t Hp Hq Hlen.
  - rewrite append_nil_l, Nat.sub_0_r. simpl. by rewrite fmap_app_nil.
  - simpl in Hp. apply andb_true_iff in Hp as [Hc Hp].
    rewrite append_cons in Hlen |- *. simpl in Hlen.
    destruct fuel as [|fuel]; [lia|].
    destruct (plain_char_inv c Hc) as (Hs & Hb & He).
    cbn [parse]. rewrite (plain_char_not c "(") by done.
    rewrite Hs, Hb, He.
    pose proof (no_quant_lit text t Hp Hq) as Hn.
    assert (Hlen' : String.length (text +:+ t) < fuel) by lia.
    pose proof (IH fuel seen t Hp Hq Hlen') as IH'.
    destruct (text +:+ t) as [|q u] eqn:E; [done|].
    simpl in Hn. rewrite !andb_true_iff, !negb_true_iff in Hn.
    destruct Hn as [[-> ->] ->]. rewrite IH'.
    rewrite fmap_cons_app. done.
Qed.

Lemma id_continue_not_gt (c : ascii) :
  is_id_continue c = true -> negb (Ascii.eqb c ">") = true.
Proof.
  intros H. destruct (Ascii.eqb_spec c ">") as [->|]; [|done].
  vm_compute in H. discriminate H.
Qed.

Lemma id_start_continue (c : ascii) :
  is_id_start c = true -> is_id_continue c = true.
Proof. intros H. unfold is_id_continue. by rewrite H. Qed.

Lemma parse_group_param (name t : string) :
  is_identifier name = true ->
  parse_group ("?P<" +:+ name +:+ ">[^/]+)" +:+ t) = Some (name, t).
Proof.
  intros Hid. unfold parse_group.
  change ("?P<" +:+ name +:+ ">[^/]+)" +:+ t)
    with (String "?" (String "P" (String "<" (name +:+ ">[^/]+)" +:+ t)))).
  cbn [startswith str_drop]. rewrite !Ascii.eqb_refl.
  rewrite span_all; [| |done].
  - rewrite Hid. reflexivity.
  - destruct name as [|c name]; [done|]. simpl in Hid |- *.
    apply andb_true_iff in Hid as [Hc Hn].
    rewrite (id_continue_not_gt c (id_start_continue c Hc)). simpl.
    eapply all_chars_impl; [|exact Hn]. apply id_continue_not_gt.
Qed.

Lemma parse_param (name t : string) (fuel : nat) (seen : list string) :
  is_identifier name = true ->
  parse (S fuel) seen ("(?P<" +:+ name +:+ ">[^/]+)" +:+ t) =
    if bool_decide (name ∈ seen) then None
    else cons (IParam name) <$> parse fuel (name :: seen) t.
Proof.
  intros Hid.
  change ("(?P<" +:+ name +:+ ">[^/]+)" +:+ t)
    with (String "(" ("?P<" +:+ name +:+ ">[^/]+)" +:+ t)).
  cbn [parse]. rewrite Ascii.eqb_refl. by rewrite parse_group_param.
Qed.

Lemma has_key_cons (m name value : string) (d : dict string) :
  has_key m ((name, value) :: d) =
    if String.eqb m name then true else has_key m d.
Proof. unfold has_key. simpl. by destruct (String.eqb m name). Qed.

Lemma parse_segs (segs : list seg) : forall fuel seen,
  segs_ok segs = true ->
  (forall m, has_key m (params segs) = true -> m ∉ seen) ->
  String.length (regex_text segs +:+ "$") < fuel ->
  parse fuel seen (regex_text segs +:+ "$") =
    Some (regex_items segs ++ [IEol]).
Proof.
  induction segs as [|[text|name value] r IH]; intros fuel seen Hok Hseen Hlen;
    cbn [segs_ok regex_text regex_items params] in *.
  - destruct fuel as [|[|fuel]]; simpl in Hlen; [lia..|]. reflexivity.
  - apply andb_true_iff in Hok as [Ht Hr]. rewrite append_assoc in Hlen |- *.
    rewrite parse_lit; [| done | by apply no_quant_regex_text | done].
    rewrite length_append in Hlen.
    rewrite IH; [| done | done | lia]. simpl. by rewrite app_assoc.
  - rewrite !andb_true_iff in Hok.
    destruct Hok as [[[[[[Hid Hw] Hv] Hns] Hend] Hfresh] Hr].
    apply negb_true_iff in Hfresh.
    rewrite !append_assoc in Hlen |- *.
    destruct fuel as [|fuel]; [lia|].
    rewrite parse_param by done.
    rewrite bool_decide_eq_false_2.
    2:{ apply Hseen. rewrite has_key_cons. by rewrite String.eqb_refl. }
    rewrite IH; [done | done | |].
    + intros m Hm [->|Hin]%elem_of_cons; [congruence|].
      revert Hin. apply Hseen. rewrite has_key_cons, Hm.
      by destruct (String.eqb m name).
    + rewrite !length_append in Hlen. rewrite length_append.
      change (String.length "(?P<") with 4 in Hlen. lia.
Qed.

Lemma parse_bol (fuel : nat) (seen : list string) (t : string) :
  parse (S fuel) seen (String "^" t) = cons IBol <$> parse fuel seen t.
Proof. reflexivity. Qed.

Lemma re_compile_segs (segs : list seg) :
  segs_ok segs = true ->
  re_compile ("^" +:+ re_sub (pattern_text segs) +:+ "$") =
    Some (IBol :: regex_items segs ++ [IEol]).
Proof.
  intros Hok. rewrite re_sub_segs by done. unfold re_compile.
  change ("^" +:+ regex_text segs +:+ "$")
    with (String "^" (regex_text segs +:+ "$")).
  rewrite parse_bol.
  rewrite parse_segs; [done | done | | simpl; lia].
  intros m _. apply not_elem_of_nil.
Qed.

Lemma greedy_take {R : Type} (ok : ascii -> bool) (v : string) :
  forall (k : string -> string -> option R) (rest : string) (r : R),
    all_chars ok v = true -> stops ok rest = true ->
    k v rest = Some r -> greedy ok k (v +:+ rest) = Some r.
Proof.
  induction v as [|c v IH]; intros k rest r Hv Hrest Hk.
  - rewrite append_nil_l. destruct rest as [|d rest]; [done|].
    simpl in Hrest |- *. apply negb_true_iff in Hrest. by rewrite Hrest.
  - simpl in Hv. apply andb_true_iff in Hv as [Hc Hv].
    rewrite append_cons. simpl. rewrite Hc.
    by rewrite (IH (fun taken rest => k (String c taken) rest) rest r).
Qed.

Lemma atom_ok_lit (c : ascii) : atom_ok (lit_atom c) c = true.
Proof.
  unfold lit_atom. destruct (Ascii.eqb_spec c ".") as [->|]; simpl.
  - reflexivity.
  - apply Ascii.eqb_refl.
Qed.

Lemma match_lit (final : string -> bool) (text : string) :
  forall items start s groups,
    match_items final (lit_items text ++ items) start (text +:+ s) groups =
      match_items final items (if truthy text then false else start) s groups.
Proof.
  induction text as [|c text IH]; intros items start s groups; [done|].
  rewrite append_cons. simpl. rewrite atom_ok_lit, IH. by destruct text.
Qed.

Lemma stops_path (segs : list seg) :
  segment_end (pattern_text segs) = true ->
  stops not_slash (path_text segs) = true.
Proof.
  induction segs as [|[[|c text]|name value] r IH]; [done|..];
    cbn [pattern_text path_text].
  - by rewrite !append_nil_l.
  - rewrite !append_cons. simpl. unfold not_slash. intros ->. done.
  - done.
Qed.

Lemma match_segs (final : string -> bool) (segs : list seg) :
  forall start groups,
    final "" = true -> segs_ok segs = true ->
    match_items final (regex_items segs ++ [IEol]) start (path_text segs)
      groups = Some (groups_after groups segs).
Proof.
  induction segs as [|[text|name value] r IH]; intros start groups Hf Hok;
    cbn [segs_ok regex_items path_text groups_after] in *.
  - simpl. by rewrite Hf.
  - apply andb_true_iff in Hok as [_ Hr].
    rewrite <- app_assoc, match_lit. by apply IH.
  - rewrite !andb_true_iff in Hok.
    destruct Hok as [[[[[[_ _] Hv] Hns] Hend] _] Hr].
    destruct value as [|c value]; [done|].
    simpl in Hns. apply andb_true_iff in Hns as [Hc Hns].
    rewrite append_cons. cbn [app match_items greedy1]. rewrite Hc.
    apply greedy_take; [done | by apply stops_path |]. by apply IH.
Qed.

Lemma groups_after_params (segs : list seg) : forall g,
  segs_ok segs = true ->
  (forall m, has_key m (params segs) = true -> dict_get m g = None) ->
  groups_after g segs = g ++ params segs.
Proof.
  induction segs as [|[text|name value] r IH]; intros g Hok Hg;
    cbn [segs_ok groups_after params] in *.
  - by rewrite app_nil_r.
  - apply andb_true_iff in Hok as [_ Hr]. by apply IH.
  - rewrite !andb_true_iff in Hok.
    destruct Hok as [[[[[[_ _] _] _] _] Hfresh] Hr].
    apply negb_true_iff in Hfresh.
    assert (Hn : dict_get name g = None).
    { apply Hg. rewrite has_key_cons. by rewrite String.eqb_refl. }
    rewrite dict_set_fresh by done. rewrite IH; [by rewrite <- app_assoc|done|].
    intros m Hm. rewrite dict_get_app_fresh.
    + simpl. destruct (String.eqb_spec m name) as [->|]; [congruence|done].
    + apply Hg. rewrite has_key_cons, Hm. by destruct (String.eqb m name).
Qed.

Lemma re_match_segs (segs : list seg) :
  segs_ok segs = true ->
  re_match (IBol :: regex_items segs ++ [IEol]) (path_text segs) =
    Some (params segs).
Proof.
  intros Hok. unfold re_match. cbn [match_items].
  rewrite match_segs by done. by rewrite groups_after_params.
Qed.

Section Routes.
Context {handler : Type}.
Implicit Types (routes : list (@route handler)) (h : handler).

(** X19: [dispatch] calls the handler of a route exactly when that route is
    the first one, in the order of registration, whose method is the
    method of the request and whose compiled pattern [match]es the path; it
    passes the groups of that match. *)
Lemma dispatch_first (routes : list (@route handler)) (meth pth : string)
    (h : handler) (kwargs : dict string) :
  dispatch routes meth pth = Some (h, kwargs) <->
  exists before regex after,
    routes = before ++ (meth, regex, h) :: after /\
    re_match regex pth = Some kwargs /\
    Forall (fun r : @route handler =>
              ~ (r.1.1 = meth /\ is_Some (re_match r.1.2 pth))) before.
Proof.
  induction routes as [|[[m regex] h0] rest IH]; simpl.
  - split; [done|]. intros (before & ? & ? & H & _). by destruct before.
  - assert (Hskip :
      ~ (m = meth /\ is_Some (re_match regex pth)) ->
      (exists before rx after,
          (m, regex, h0) :: rest = before ++ (meth, rx, h) :: after /\
          re_match rx pth = Some kwargs /\
          Forall (fun r : @route handler =>
                    ~ (r.1.1 = meth /\ is_Some (re_match r.1.2 pth))) before)
      <->
      (exists before rx after,
          rest = before ++ (meth, rx, h) :: after /\
          re_match rx pth = Some kwargs /\
          Forall (fun r : @route handler =>
                    ~ (r.1.1 = meth /\ is_Some (re_match r.1.2 pth))) before)).
    { intros Hno. split.
      - intros (before & rx & after & Hr & Hg & Hb).
        destruct before as [|r0 before]; simpl in Hr.
        + injection Hr as -> -> ->. exfalso. apply Hno. split; [done|].
          by rewrite Hg.
        + injection Hr as <- ->. inversion Hb; subst.
          by exists before, rx, after.
      - intros (before & rx & after & -> & Hg & Hb).
        exists ((m, regex, h0) :: before), rx, after.
        split; [done|]. split; [done|]. by constructor. }
    destruct (String.eqb m meth) eqn:Em.
    + apply String.eqb_eq in Em. subst m.
      destruct (re_match regex pth) as [g|] eqn:Eg.
      * split.
        -- intros [= <- <-]. exists [], regex, rest. by repeat split.
        -- intros (before & rx & after & Hr & Hg & Hb).
           destruct before as [|r0 before]; simpl in Hr.
           ++ injection Hr as <- <- <-. congruence.
           ++ injection Hr as <- _. inversion Hb as [|? ? H0 _]; subst.
              exfalso. apply H0. simpl. split; [done|]. by rewrite Eg.
      * rewrite IH. symmetry. apply Hskip. intros [_ [x Hx]]. congruence.
    + apply String.eqb_neq in Em. rewrite IH. symmetry. apply Hskip. tauto.
Qed.

(** A route whose method is not the method of the request is passed
    over, whatever its pattern. *)
Lemma dispatch_other_method (m : string) (regex : regex) (h : handler)
    (rest : list (@route handler)) (meth pth : string) :
  m <> meth ->
  dispatch ((m, regex, h) :: rest) meth pth = dispatch rest meth pth.
Proof. intros H. simpl. apply String.eqb_neq in H. by rewrite H. Qed.

(** C4, as amended.  For a pattern whose literal text has no character
    special to [re], whose bracketed names are distinct identifiers and
    whose bracketed segments each end their path segment, [on] registers
    the route with the pattern compiled to: the start anchor, each literal
    character, a group of one or more non-slash characters for each
    bracketed segment, the end anchor.  A path that has a non-empty value
    without slash in place of each bracketed segment matches it, and the
    handler receives exactly those values under their names. *)
Theorem on_bracketed_segments (routes : list (@route handler)) (segs : list seg)
    (meth : string) (h : handler) :
  segs_ok segs = true ->
  let regex := IBol :: regex_items segs ++ [IEol] in
  on routes (pattern_text segs) meth h = Ok (routes ++ [(meth, regex, h)]) /\
  re_match regex (path_text segs) = Some (params segs) /\
  dispatch [(meth, regex, h)] meth (path_text segs) = Some (h, params segs).
Proof.
  intros Hok regex. split; [|split].
  - unfold on. by rewrite re_compile_segs.
  - by apply re_match_segs.
  - simpl. rewrite String.eqb_refl.
    fold regex. unfold regex. by rewrite re_match_segs.
Qed.

End Routes.

End RouterFacts.

(** ** The connection handler *)

Module ServerFacts.
Import Http ResponseFacts.

Section Server.
Context {handler : Type}.
Context {codec : Codec} {decoder : Decoder}.
Implicit Types (routes : list (@route handler)).

(** C8: when the read returned no data, or the request line has fewer
    than three tokens between spaces, [__handle_client] only closes the
    writer and returns: nothing is written and nothing is raised. *)
Theorem malformed_request_closed (routes : list (@route handler)) (data : bytes)
    (w : writer) :
  data = [] \/ length (split " " (request_line_of data)) < 3 ->
  handle_client routes data w = Returned (w ++ [Close]) /\
  written (w ++ [Close]) = written w /\
  closes (w ++ [Close]) = closes w + 1.
Proof.
  intros H. split.
  - unfold handle_client. destruct data as [|b data]; [done|].
    destruct H as [H|H]; [done|]. unfold request_line_of in H.
    destruct (parse_request (decode (b :: data))) as [[rl hs] bd].
    simpl in H. apply Nat.ltb_lt in H. by rewrite H.
  - rewrite written_app, closes_app. simpl. by rewrite app_nil_r.
Qed.

End Server.

End ServerFacts.

(** ** The server on concrete requests *)

Module HttpExamples.
Import Http Sample RouterFacts ServerFacts ParserFacts.
#[local] Existing Instance python_json.
#[local] Existing Instance latin_decoder.

(** C3 at a path that ends in a newline.  The routes are [/items] and then
    [/[name]], both for [GET].  The path [/items\n] is fully matched by
    the second pattern only, yet the route loop selects the handler of
    the first: its [$] accepts the position before the final newline.  On
    a connection that sends this request the loop is not reached: the
    construction of the [Request] raises [AttributeError], and no handler
    is called. *)
Theorem dispatch_trailing_newline :
  exists regex1 regex2,
    (r ← on [] "/items" "GET" list_items; on r "/[name]" "GET" show_any) =
      Ok [("GET", regex1, list_items); ("GET", regex2, show_any)] /\
    re_fullmatch regex1 items_newline = None /\
    re_fullmatch regex2 items_newline =
      Some [("name", "items" +:+ String LF "")] /\
    dispatch [("GET", regex1, list_items); ("GET", regex2, show_any)]
      "GET" items_newline = Some (list_items, []) /\
    handle_client
      [("GET", regex1, list_items); ("GET", regex2, show_any)]
      newline_request [] = Raised AttributeError [].
Proof.
  eexists. eexists. split; [vm_compute; reflexivity|].
  repeat split; vm_compute; reflexivity.
Qed.

(** C4, counterexample.  In the pattern [/a+b/[id]] the [+] of the literal
    part is a quantifier for [re]: the path [/a+b/42], which differs from
    the pattern in the bracketed segment only, does not match the route,
    and the route loop selects no handler for it. *)
Lemma on_plus_in_literal :
  exists regex,
    on [] "/a+b/[id]" "GET" show_item = Ok [("GET", regex, show_item)] /\
    re_match regex "/a+b/42" = None /\
    dispatch [("GET", regex, show_item)] "GET" "/a+b/42" = None.
Proof.
  eexists. split; [vm_compute; reflexivity|].
  repeat split; vm_compute; reflexivity.
Qed.

(** Witness of C4 as amended: the pattern [/items/[id]] and the path
    [/items/42]. *)
Lemma on_bracketed_segments_witness :
  on [] "/items/[id]" "GET" show_item =
    Ok [("GET",
         [IBol; IOne (ALit "/"); IOne (ALit "i"); IOne (ALit "t");
          IOne (ALit "e"); IOne (ALit "m"); IOne (ALit "s"); IOne (ALit "/");
          IParam "id"; IEol], show_item)] /\
  re_match
    [IBol; IOne (ALit "/"); IOne (ALit "i"); IOne (ALit "t");
     IOne (ALit "e"); IOne (ALit "m"); IOne (ALit "s"); IOne (ALit "/");
     IParam "id"; IEol] "/items/42" = Some [("id", "42")] /\
  dispatch
    [("GET",
      [IBol; IOne (ALit "/"); IOne (ALit "i"); IOne (ALit "t");
       IOne (ALit "e"); IOne (ALit "m"); IOne (ALit "s"); IOne (ALit "/");
       IParam "id"; IEol], show_item)] "GET" "/items/42" =
    Some (show_item, [("id", "42")]).
Proof.
  apply (on_bracketed_segments [] [Lit "/items/"; Param "id" "42"] "GET"
           show_item).
  reflexivity.
Defined.

(** Witness of C8: the request [GET /] with no protocol token. *)
Lemma malformed_request_closed_witness :
  handle_client ([] : list (@route app_handler))
    (encode ("GET /" +:+ crlf +:+ crlf)) [] = Returned [Close] /\
  written [Close] = [] /\
  closes [Close] = 1.
Proof.
  apply (malformed_request_closed []
           (encode ("GET /" +:+ crlf +:+ crlf)) []).
  right. vm_compute. lia.
Defined.

Example two_hosts_headers :
  request_headers two_hosts = [("Host", "b"); ("X-Id", "7"); ("Accept", "c")].
Proof. vm_compute. reflexivity. Qed.

(** Witness of C10: the second [Host] line decides. *)
Lemma last_header_wins_witness :
  dict_get "Host" (request_headers two_hosts) = Some "b".
Proof.
  apply (last_header_wins two_hosts ["Host: a"; "X-Id: 7"] ["Accept: c"]
           "Host: b" "Host" "b").
  - vm_compute. reflexivity.
  - vm_compute. reflexivity.
  - constructor; [|constructor]. vm_compute. discriminate.
Defined.

End HttpExamples.

(** ** The store on concrete inputs, with [Json.dumps] and [Json.loads] *)

Module StoreExamples.
Import Store Sample StoreFacts.
#[local] Existing Instance python_json.

Example set_alice : set db0 "users" "alice" profile = Ok db_alice.
Proof. vm_compute. reflexivity. Qed.

(** An absolute key gives the same value file in every table. *)
Example key_file_absolute :
  key_file db0 "a" "/tmp/x" = "/tmp/x.json" /\
  key_file db0 "b" "/tmp/x" = "/tmp/x.json".
Proof. split; reflexivity. Qed.

(** C1, counterexample.  Two tables index the same absolute key, hence
    the same value file.  Deleting it from the first table removes the
    file; deleting it from the second then finds the key in the index,
    drops it from memory, sees no file and returns without rewriting
    [index.json], which still lists the key. *)
Lemma delete_leaves_index_stale :
  exists db3 db4,
    run db0 [OpSet "a" "/tmp/x" (JNum 1); OpSet "b" "/tmp/x" (JNum 2);
                   OpDelete "a" "/tmp/x"] = Ok db3 /\
    index_entry db3 "b" "/tmp/x" = Some "/tmp/x.json" /\
    delete db3 "b" "/tmp/x" = Ok db4 /\
    tables db4 !! "b" = Some [] /\
    disk db4 !! index_file db4 "b" =
      Some (dumps (JObj [("/tmp/x", JStr "/tmp/x.json")])) /\
    ~ index_synced db4 "b".
Proof.
  eexists. eexists.
  split; [vm_compute; reflexivity|].
  split; [vm_compute; reflexivity|].
  split; [vm_compute; reflexivity|].
  split; [vm_compute; reflexivity|].
  split; [vm_compute; reflexivity|].
  intros (idx & Ht & Hd). vm_compute in Ht. injection Ht as <-.
  vm_compute in Hd. discriminate Hd.
Qed.

(** Witness of C1 as amended: [set] of [alice] returns [db_alice]; there
    [alice] is indexed and her file exists, and [delete] returns. *)
Lemma index_synced_after_set_delete_witness :
  index_synced db_alice "users" /\
  (exists db', delete db_alice "users" "alice" = Ok db' /\
               index_synced db' "users").
Proof.
  split.
  - destruct (index_synced_after_set_delete db0 "users" "alice")
      as [Hset _].
    apply (Hset profile db_alice). vm_compute. reflexivity.
  - eexists. split; [vm_compute; reflexivity|].
    destruct (index_synced_after_set_delete db_alice "users" "alice")
      as [_ Hdel].
    refine (proj1 (Hdel _ _) "./db/users/keys/alice.json" _ _ _);
      vm_compute; reflexivity.
Defined.

(** C2, counterexample.  On the root [/db/], the key [/db/t/index] of table
    [t] has [/db/t/index.json] as its value file, which is the table's
    index file: [set] writes the value there and then the index over it,
    and [get] returns the index. *)
Lemma set_get_index_alias :
  key_file db_abs "t" "/db/t/index" = index_file db_abs "t" /\
  loads (dumps (JNum 5)) = Some (JNum 5) /\
  exists db',
    set db_abs "t" "/db/t/index" (JNum 5) = Ok db' /\
    get db' "t" "/db/t/index" =
      Ok (JObj [("/db/t/index", JStr "/db/t/index.json")]) /\
    get db' "t" "/db/t/index" <> Ok (JNum 5).
Proof.
  split; [reflexivity|]. split; [vm_compute; reflexivity|].
  eexists. split; [vm_compute; reflexivity|].
  split; [vm_compute; reflexivity|].
  vm_compute. discriminate.
Qed.

(** C5, counterexample.  On the root [/db/], the key [/db/t/index] of
    table [t] has the table's [index.json] as its value file.  [delete]
    removes that file and then writes the index to the same path: the file
    is there after the call. *)
Lemma delete_index_alias :
  exists db1 db2,
    set db_abs "t" "/db/t/index" (JNum 5) = Ok db1 /\
    delete db1 "t" "/db/t/index" = Ok db2 /\
    disk db2 !! key_file db_abs "t" "/db/t/index" = Some (dumps (JObj [])) /\
    path_exists db2 (key_file db_abs "t" "/db/t/index") = true.
Proof.
  eexists. eexists.
  split; [vm_compute; reflexivity|].
  split; [vm_compute; reflexivity|].
  split; vm_compute; reflexivity.
Qed.

(** Witness of C6: [bob] was never set in [users]. *)
Lemma delete_never_written_witness :
  exists db',
    delete db_alice "users" "bob" = Ok db' /\
    tables db' = tables db_alice /\
    disk db' = disk db_alice /\
    disk db' !! index_file db_alice "users" =
      disk db_alice !! index_file db_alice "users".
Proof.
  apply (delete_never_written db0 db_alice
           [OpSet "users" "alice" profile; OpDelete "users" "bob"]
           "users" "bob").
  - vm_compute. reflexivity.
  - constructor; [simpl; intros [_ H]; discriminate H|].
    constructor; [simpl; intros H; exact H|]. constructor.
  - vm_compute. reflexivity.
Defined.

End StoreExamples.

(** ** Paths of the store under simple names *)

Module PathFacts.
Import Store Http StoreModel.

Lemma length_cons (c : ascii) (s : string) :
  String.length (String c s) = S (String.length s).
Proof. reflexivity. Qed.

Lemma append_inj_r (s x y : string) : x +:+ s = y +:+ s -> x = y.
Proof.
  revert y. induction x as [|c x IH]; intros [|d y] H; [done|..].
  - apply (f_equal String.length) in H.
    rewrite append_nil_l, append_cons, length_cons, length_append in H. lia.
  - apply (f_equal String.length) in H.
    rewrite append_nil_l, append_cons, length_cons, length_append in H. lia.
  - rewrite !append_cons in H. injection H as -> H. f_equal. by apply IH.
Qed.

Lemma slash_split (t t' x x' : string) :
  all_chars not_slash t = true -> all_chars not_slash t' = true ->
  t +:+ String "/" x = t' +:+ String "/" x' -> t = t' /\ x = x'.
Proof.
  revert t'. induction t as [|c t IH]; intros [|d t'] Ht Ht' H.
  - rewrite !append_nil_l in H. by injection H as ->.
  - rewrite append_nil_l, append_cons in H. injection H as <- _.
    simpl in Ht'. discriminate Ht'.
  - rewrite append_nil_l, append_cons in H. injection H as -> _.
    simpl in Ht. discriminate Ht.
  - rewrite !append_cons in H. injection H as -> H.
    simpl in Ht, Ht'. apply andb_true_iff in Ht as [_ Ht].
    apply andb_true_iff in Ht' as [_ Ht'].
    destruct (IH t' Ht Ht' H) as [-> ->]. done.
Qed.

Lemma endswith_slash_app (a t : string) :
  truthy t = true -> endswith_slash (a +:+ t) = endswith_slash t.
Proof.
  intros Ht. induction a as [|c a IH]; [done|].
  rewrite append_cons. simpl. rewrite IH.
  destruct (a +:+ t) eqn:E; [|done].
  destruct a; [|done]. rewrite append_nil_l in E. by subst t.
Qed.

Lemma endswith_slash_none (t : string) :
  all_chars not_slash t = true -> endswith_slash t = false.
Proof.
  induction t as [|c t IH]; [done|]. simpl.
  intros [Hc Ht]%andb_true_iff. destruct t; [|by apply IH].
  unfold not_slash in Hc. by apply negb_true_iff in Hc.
Qed.

Lemma startswith_slash_none (t u : string) :
  truthy t = true -> all_chars not_slash t = true ->
  startswith "/" (t +:+ u) = false.
Proof.
  destruct t as [|c t]; [done|]. intros _ [Hc _]%andb_true_iff.
  rewrite append_cons.
  change (startswith "/" (String c (t +:+ u)))
    with (if Ascii.eqb "/" c then true else false).
  unfold not_slash in Hc. apply negb_true_iff in Hc.
  rewrite Ascii.eqb_sym. by rewrite Hc.
Qed.

Lemma path_join_component (a t : string) :
  truthy t = true -> all_chars not_slash t = true ->
  path_join a t = root_prefix a +:+ t.
Proof.
  intros Ht Hs. unfold path_join, root_prefix.
  pose proof (startswith_slash_none t "" Ht Hs) as H.
  rewrite append_nil_r in H. rewrite H.
  destruct (negb (truthy a) || endswith_slash a); [done|].
  by rewrite append_assoc.
Qed.

Lemma root_prefix_dir (a t : string) :
  truthy t = true -> all_chars not_slash t = true ->
  root_prefix (a +:+ t) = a +:+ t +:+ "/".
Proof.
  intros Ht Hs. unfold root_prefix.
  rewrite truthy_append, Ht, orb_true_r, endswith_slash_app by done.
  rewrite endswith_slash_none by done. simpl. by rewrite append_assoc.
Qed.

Lemma simple_table_inv (t : string) :
  simple_table t = true -> truthy t = true /\ all_chars not_slash t = true.
Proof. unfold simple_table. rewrite !andb_true_iff. tauto. Qed.

Lemma index_file_simple (db : Database) (t : string) :
  simple_table t = true ->
  index_file db t = root_prefix (base_path db) +:+ t +:+ "/index.json".
Proof.
  intros [Ht Hs]%simple_table_inv. unfold index_file.
  rewrite (path_join_component (base_path db) t) by done.
  rewrite path_join_component by reflexivity.
  rewrite root_prefix_dir by done. by rewrite !append_assoc.
Qed.

Lemma path_join_file (dir f : string) :
  truthy dir = true -> endswith_slash dir = false ->
  startswith "/" f = false -> path_join dir f = dir +:+ "/" +:+ f.
Proof. intros Hd He Hf. unfold path_join. by rewrite Hf, Hd, He. Qed.

Lemma key_file_simple (db : Database) (t k : string) :
  simple_table t = true -> simple_key k = true ->
  key_file db t k =
    root_prefix (base_path db) +:+ t +:+ "/keys/" +:+ k +:+ ".json".
Proof.
  intros [Ht Hs]%simple_table_inv Hk. unfold key_file.
  rewrite (path_join_component (base_path db) t) by done.
  rewrite (path_join_component _ "keys") by reflexivity.
  rewrite root_prefix_dir by done.
  rewrite path_join_file.
  - by rewrite !append_assoc.
  - by rewrite !truthy_append, !orb_true_r.
  - by rewrite endswith_slash_app.
  - destruct k as [|c k]; [done|]. by apply startswith_slash_none.
Qed.

Lemma key_file_not_index (db : Database) (t k t' : string) :
  simple_table t = true -> simple_key k = true -> simple_table t' = true ->
  key_file db t k <> index_file db t'.
Proof.
  intros Ht Hk Ht' H. rewrite key_file_simple, index_file_simple in H by done.
  apply (inj (String.append _)) in H.
  apply simple_table_inv in Ht as [_ Hs], Ht' as [_ Hs'].
  change ("/keys/" +:+ k +:+ ".json")
    with (String "/" ("keys/" +:+ k +:+ ".json")) in H.
  change "/index.json" with (String "/" "index.json") in H.
  apply slash_split in H as [_ H]; [|done..]. discriminate H.
Qed.

Lemma key_file_inj (db : Database) (t k t' k' : string) :
  simple_table t = true -> simple_key k = true ->
  simple_table t' = true -> simple_key k' = true ->
  key_file db t k = key_file db t' k' -> t = t' /\ k = k'.
Proof.
  intros Ht Hk Ht' Hk' H. rewrite !key_file_simple in H by done.
  apply (inj (String.append _)) in H.
  apply simple_table_inv in Ht as [_ Hs], Ht' as [_ Hs'].
  change ("/keys/" +:+ ?x) with (String "/" ("keys/" +:+ x)) in H.
  apply slash_split in H as [-> H]; [|done..]. split; [done|].
  apply (inj (String.append _)) in H. by apply append_inj_r in H.
Qed.

Lemma index_file_inj (db : Database) (t t' : string) :
  simple_table t = true -> simple_table t' = true ->
  index_file db t = index_file db t' -> t = t'.
Proof.
  intros Ht Ht' H. rewrite !index_file_simple in H by done.
  apply (inj (String.append _)) in H. by apply append_inj_r in H.
Qed.

End PathFacts.

(** ** A value under a key without slash *)

Module PlainKeys.
Import Store Http StoreModel StoreFacts PathFacts.

Section Database.
Context {codec : Codec}.

(** The value file of a key without slash lies in the [keys] directory of
    its table, whatever the table is; it is not the table's
    [index.json]. *)
Lemma key_file_not_own_index (db : Database) (t k : string) :
  simple_key k = true -> key_file db t k <> index_file db t.
Proof.
  intros Hk H. unfold key_file, index_file in H.
  rewrite (path_join_component _ "keys") in H by reflexivity.
  rewrite (path_join_component _ "index.json") in H by reflexivity.
  rewrite path_join_file in H.
  - rewrite !append_assoc in H. apply (inj (String.append _)) in H.
    discriminate H.
  - by rewrite truthy_append, orb_true_r.
  - by rewrite endswith_slash_app.
  - destruct k as [|c k]; [done|]. unfold simple_key in Hk.
    by apply startswith_slash_none.
Qed.

(** C2, as amended.  For a key without slash, in any table: after a [set]
    that returns, [get] returns the value, for every value that
    [json.load] reads back from what [json.dump] wrote for it. *)
Theorem set_get_roundtrip (db db' : Database) (table key : string)
    (value : json) :
  simple_key key = true -> codec_ok value ->
  set db table key value = Ok db' ->
  get db' table key = Ok value.
Proof.
  intros Hk Hc Hset.
  destruct (set_get_codec db table key value) as (db1 & H1 & Hg);
    [by apply key_file_not_own_index|exact Hc|].
  rewrite H1 in Hset. by injection Hset as <-.
Qed.

(** C5, as amended.  After a [set] that returns and a [delete] of the
    same key that returns, [get] returns [None]; and for a key without
    slash the value file is gone from the disk. *)
Theorem delete_after_set (db db1 db2 : Database) (table key : string)
    (value : json) :
  set db table key value = Ok db1 ->
  delete db1 table key = Ok db2 ->
  get db2 table key = Ok JNull /\
  (simple_key key = true ->
   path_exists db2 (key_file db table key) = false).
Proof.
  rewrite set_succeeds. intros [= <-]. rewrite delete_result. simpl.
  rewrite lookup_insert_eq. simpl. rewrite dict_get_set_eq.
  rewrite truthy_key_file. simpl.
  assert (He : path_exists
    {| base_path := base_path db;
       tables := <[table:=dict_set key (key_file db table key)
                            (default [] (tables db !! table))]> (tables db);
       disk := <[index_file db table:=
                  json_dump (index_json (dict_set key (key_file db table key)
                       (default [] (tables db !! table))))]>
                 (<[key_file db table key:=json_dump value]> (disk db)) |}
    (key_file db table key) = true).
  { unfold path_exists. simpl. apply bool_decide_eq_true.
    destruct (decide (index_file db table = key_file db table key)) as [->|N].
    - rewrite lookup_insert_eq. by eexists.
    - rewrite lookup_insert_ne, lookup_insert_eq by done. by eexists. }
  rewrite He. intros [= <-]. split.
  - unfold get. simpl. rewrite lookup_insert_eq.
    by rewrite dict_get_remove_eq.
  - intros Hk. unfold path_exists. simpl. unfold index_file. simpl.
    fold (index_file db table).
    rewrite lookup_insert_ne
      by (intros E; by apply (key_file_not_own_index db table key Hk)).
    rewrite lookup_delete_eq. apply bool_decide_eq_false. by intros [? ?].
Qed.

End Database.

End PlainKeys.

(** ** More on ordered dictionaries *)

Module DictFacts.

Section Dict.
Context {V : Type}.
Implicit Types (d : dict V) (k : string) (v : V).

Lemma dict_get_remove_ne k k' d :
  k <> k' -> dict_get k (dict_remove k' d) = dict_get k d.
Proof.
  intros Hne. induction d as [|[k1 v1] d IH]; simpl; [done|].
  destruct (String.eqb_spec k' k1) as [->|H1]; simpl.
  - apply String.eqb_neq in Hne. by rewrite Hne.
  - by rewrite IH.
Qed.

Lemma dict_get_keys k d : is_Some (dict_get k d) <-> k ∈ dict_keys d.
Proof.
  unfold dict_keys. induction d as [|[k1 v1] d IH]; simpl.
  - split; [by intros [? ?]|by intros ?%elem_of_nil].
  - rewrite elem_of_cons. destruct (String.eqb_spec k k1) as [->|Hne].
    + split; [by left|by eexists].
    + rewrite IH. split; [by right|].
      intros [?|?]; [done|assumption].
Qed.

Lemma dict_keys_set k v d :
  dict_keys (dict_set k v d) =
    if decide (k ∈ dict_keys d) then dict_keys d else dict_keys d ++ [k].
Proof.
  unfold dict_keys. induction d as [|[k1 v1] d IH].
  - simpl. destruct (decide (k ∈ [])) as [Hin|_]; [|done].
    by apply elem_of_nil in Hin.
  - cbn [dict_set map fst]. destruct (String.eqb_spec k k1) as [->|Hne].
    + destruct (decide (k1 ∈ k1 :: map fst d)) as [_|Hin]; [done|].
      exfalso. apply Hin. by left.
    + cbn [map fst]. rewrite IH.
      destruct (decide (k ∈ map fst d)) as [Hin|Hin];
        destruct (decide (k ∈ k1 :: map fst d)) as [Hin'|Hin']; try done.
      * exfalso. apply Hin'. by right.
      * apply elem_of_cons in Hin' as [?|?]; done.
Qed.

Lemma dict_keys_remove k d :
  dict_keys (dict_remove k d) =
    filter (fun k' => k' <> k) (dict_keys d).
Proof.
  unfold dict_keys. induction d as [|[k1 v1] d IH]; simpl; [done|].
  destruct (String.eqb_spec k k1) as [->|Hne]; simpl.
  - rewrite filter_cons_False by (intros H; by apply H). done.
  - rewrite filter_cons_True by (simpl; congruence). simpl. by rewrite IH.
Qed.

Lemma dict_keys_set_NoDup k v d :
  NoDup (dict_keys d) -> NoDup (dict_keys (dict_set k v d)).
Proof.
  intros H. rewrite dict_keys_set. destruct (decide _) as [Hin|Hin]; [done|].
  apply NoDup_app. split; [done|]. split; [|apply NoDup_singleton].
  intros x Hx [->|Hn]%elem_of_cons; [done|]. by apply elem_of_nil in Hn.
Qed.

Lemma dict_keys_remove_NoDup k d :
  NoDup (dict_keys d) -> NoDup (dict_keys (dict_remove k d)).
Proof. intros H. rewrite dict_keys_remove. by apply NoDup_filter. Qed.

End Dict.

End DictFacts.

(** ** The store as a map, under simple names *)

Module StoreRefinement.
Import Store StoreModel StoreFacts PathFacts DictFacts.

Section Refinement.
Context {codec : Codec}.

Lemma consistent_fresh (db : Database) : tables db = ∅ -> consistent db ∅.
Proof.
  intros H. unfold consistent, index_entry. rewrite H.
  split; [|split]; intros *; rewrite ?lookup_empty; done.
Qed.

Lemma index_entry_default (db : Database) (t k : string) :
  dict_get k (default [] (tables db !! t)) = index_entry db t k.
Proof. unfold index_entry. by destruct (tables db !! t). Qed.

Lemma consistent_set (db db' : Database) (m : gmap (string * string) json)
    (t k : string) (v : json) :
  consistent db m -> simple_table t = true -> simple_key k = true ->
  set db t k v = Ok db' -> consistent db' (<[(t, k) := v]> m).
Proof.
  intros (I1 & I2 & I3) Ht Hk. rewrite set_succeeds. intros [= <-].
  unfold consistent, index_entry, key_file, index_file. simpl.
  fold (key_file db t k). fold (index_file db t).
  split; [|split].
  - intros t' k'. fold (key_file db t' k').
    destruct (decide (t' = t)) as [->|Hne].
    + rewrite lookup_insert_eq.
      destruct (decide (k' = k)) as [->|Hnk].
      * by rewrite dict_get_set_eq, lookup_insert_eq.
      * rewrite dict_get_set_ne by done.
        rewrite lookup_insert_ne by congruence.
        rewrite index_entry_default. apply I1.
    + rewrite !lookup_insert_ne by congruence. apply I1.
  - intros t' k' v'. fold (key_file db t' k').
    destruct (decide ((t', k') = (t, k))) as [[= -> ->]|Hne].
    + rewrite lookup_insert_eq. intros [= <-]. split; [done|]. split; [done|].
      rewrite lookup_insert_ne by (symmetry; by apply key_file_not_index).
      apply lookup_insert_eq.
    + rewrite lookup_insert_ne by congruence. intros Hm.
      destruct (I2 _ _ _ Hm) as (Ht' & Hk' & Hd). split; [done|]. split; [done|].
      rewrite lookup_insert_ne by (symmetry; by apply key_file_not_index).
      rewrite lookup_insert_ne; [done|].
      intros E. apply key_file_inj in E as [-> ->]; done.
  - intros t' idx'. fold (index_file db t').
    destruct (decide (t' = t)) as [->|Hne].
    + rewrite lookup_insert_eq. intros [= <-]. split; [done|].
      apply lookup_insert_eq.
    + rewrite lookup_insert_ne by congruence. intros Ht'.
      destruct (I3 _ _ Ht') as [Hs Hd]. split; [done|].
      rewrite lookup_insert_ne.
      2:{ intros E. apply index_file_inj in E; done. }
      rewrite lookup_insert_ne by (by apply key_file_not_index). done.
Qed.

Lemma consistent_delete (db db' : Database)
    (m : gmap (string * string) json) (t k : string) :
  consistent db m ->
  delete db t k = Ok db' -> consistent db' (base.delete (t, k) m).
Proof.
  intros (I1 & I2 & I3). rewrite delete_result.
  pose proof (I1 t k) as E1. unfold index_entry in E1.
  destruct (tables db !! t) as [idx|] eqn:Et.
  2:{ intros [= <-]. destruct (m !! (t, k)) eqn:Em; [done|].
      rewrite delete_id by done. done. }
  simpl. destruct (m !! (t, k)) as [v|] eqn:Em; simpl in E1; rewrite E1.
  2:{ intros [= <-]. rewrite delete_id by done.
      rewrite dict_remove_absent, insert_id by done.
      by destruct db. }
  destruct (I2 _ _ _ Em) as (Ht & Hk & Hd).
  rewrite truthy_key_file. unfold path_exists. rewrite Hd. simpl.
  rewrite ?bool_decide_eq_true_2 by by eexists. intros [= <-].
  unfold consistent, index_entry, key_file, index_file. simpl.
  fold (key_file db t k). fold (index_file db t).
  split; [|split].
  - intros t' k'. fold (key_file db t' k').
    destruct (decide (t' = t)) as [->|Hne].
    + rewrite lookup_insert_eq.
      destruct (decide (k' = k)) as [->|Hnk].
      * by rewrite dict_get_remove_eq, lookup_delete_eq.
      * rewrite dict_get_remove_ne by done.
        rewrite lookup_delete_ne by congruence.
        specialize (I1 t k'). unfold index_entry in I1. by rewrite Et in I1.
    + rewrite lookup_insert_ne by congruence.
      rewrite lookup_delete_ne by congruence. apply I1.
  - intros t' k' v'. fold (key_file db t' k').
    destruct (decide ((t', k') = (t, k))) as [[= -> ->]|Hne].
    + by rewrite lookup_delete_eq.
    + rewrite lookup_delete_ne by congruence. intros Hm.
      destruct (I2 _ _ _ Hm) as (Ht' & Hk' & Hd'). split; [done|]. split; [done|].
      rewrite lookup_insert_ne by (symmetry; by apply key_file_not_index).
      rewrite lookup_delete_ne; [done|].
      intros E. apply key_file_inj in E as [-> ->]; done.
  - intros t' idx'. fold (index_file db t').
    destruct (decide (t' = t)) as [->|Hne].
    + rewrite lookup_insert_eq. intros [= <-].
      destruct (I3 _ _ Et) as [Hs _]. split; [done|]. apply lookup_insert_eq.
    + rewrite lookup_insert_ne by congruence. intros Ht'.
      destruct (I3 _ _ Ht') as [Hs Hd']. split; [done|].
      rewrite lookup_insert_ne.
      2:{ intros E. apply index_file_inj in E; [done..|].
          by destruct (I3 _ _ Et). }
      rewrite lookup_delete_ne by (by apply key_file_not_index). done.
Qed.

Lemma consistent_run (ops : list op) : forall db db' m,
  consistent db m -> Forall (fun o => simple_op o = true) ops ->
  run db ops = Ok db' -> consistent db' (apply_ops m ops).
Proof.
  induction ops as [|o ops IH]; intros db db' m Hc Hall Hrun.
  - simpl in Hrun. by injection Hrun as <-.
  - inversion Hall as [|? ? Ho Hops]; subst. simpl in Hrun.
    destruct (run_op db o) as [db1|e] eqn:E; [|done].
    apply (IH db1); [|done..]. destruct o as [t k v|t k]; simpl in E, Ho |- *.
    + apply andb_true_iff in Ho as [Ht Hk]. by eapply consistent_set.
    + by eapply consistent_delete.
Qed.

Lemma run_total (ops : list op) : forall db, exists db', run db ops = Ok db'.
Proof.
  induction ops as [|o ops IH]; intros db; [by eexists|]. simpl.
  destruct o as [t k v|t k]; simpl.
  - rewrite set_succeeds. apply IH.
  - rewrite delete_result. destruct (tables db !! t) as [idx|]; [|apply IH].
    simpl. destruct (dict_get k idx) as [p|]; [|apply IH].
    destruct (truthy p && _); apply IH.
Qed.

Lemma apply_ops_codec_ok (ops : list op) : forall m,
  map_Forall (fun _ v => codec_ok v) m -> Forall codec_ok_op ops ->
  map_Forall (fun _ v => codec_ok v) (apply_ops m ops).
Proof.
  induction ops as [|o ops IH]; intros m Hm Hops; [done|].
  inversion Hops as [|? ? Ho Hops']; subst. apply IH; [|done].
  destruct o as [t k v|t k]; simpl in *.
  - by apply map_Forall_insert_2.
  - by apply map_Forall_delete.
Qed.

Lemma get_index_entry (db : Database) (t k : string) :
  get db t k =
    match index_entry db t k with
    | None => Ok JNull
    | Some p =>
        if negb (truthy p) then Ok JNull
        else match disk db !! p with
             | None => Ok JNull
             | Some text =>
                 match json_load text with
                 | Some v => Ok v
                 | None => Raise JSONDecodeError
                 end
             end
    end.
Proof. unfold get, index_entry. by destruct (tables db !! t). Qed.

Lemma consistent_get (db : Database) (m : gmap (string * string) json)
    (t k : string) :
  consistent db m ->
  (forall v, m !! (t, k) = Some v -> codec_ok v) ->
  get db t k = Ok (default JNull (m !! (t, k))).
Proof.
  intros (I1 & I2 & _) Hok. rewrite get_index_entry, I1.
  destruct (m !! (t, k)) as [v|] eqn:Em; simpl; [|done].
  rewrite truthy_key_file. simpl.
  destruct (I2 _ _ _ Em) as (_ & _ & ->). by rewrite (Hok v).
Qed.

(** X1: the store refines a map.  Start from a store with no table and
    take a sequence of [set] and [delete] calls whose table names are
    plain directory names and whose keys hold no slash, with values that
    [json.load] reads back from their dump.  When every call of the
    sequence has returned, [get(table, key)] returns the value of the last
    [set] of that key in that table that no later [delete] removed, and
    [None] when there is none. *)
Theorem get_after_run (db0 db : Database) (ops : list op) :
  tables db0 = ∅ ->
  Forall (fun o => simple_op o = true) ops ->
  Forall codec_ok_op ops ->
  run db0 ops = Ok db ->
  forall t k, get db t k = Ok (default JNull (apply_ops ∅ ops !! (t, k))).
Proof.
  intros H0 Hs Hc Hrun t k.
  apply consistent_get.
  - eapply consistent_run; [by apply consistent_fresh|done..].
  - intros v Hv.
    by apply (apply_ops_codec_ok ops ∅ (map_Forall_empty _) Hc (t, k) v).
Qed.

(** X2: under the same plain names, and whatever the values are, after
    every sequence of [set] and [delete] calls from a store with no table
    the [index.json] of each known table holds the dump of the in-memory
    index, and every index entry is the path of the key's own value file,
    which exists. *)
Theorem index_synced_after_run (db0 : Database) (ops : list op) :
  tables db0 = ∅ ->
  Forall (fun o => simple_op o = true) ops ->
  exists db,
    run db0 ops = Ok db /\
    (forall t, is_Some (tables db !! t) -> index_synced db t) /\
    (forall t k p,
        index_entry db t k = Some p ->
        p = key_file db t k /\ path_exists db p = true).
Proof.
  intros H0 Hs. destruct (run_total ops db0) as [db Hrun].
  exists db. split; [done|].
  destruct (consistent_run ops db0 db ∅ (consistent_fresh db0 H0) Hs Hrun)
    as (I1 & I2 & I3).
  split.
  - intros t [idx Ht]. exists idx. split; [done|]. by apply (I3 t idx).
  - intros t k p. rewrite I1.
    destruct (apply_ops ∅ ops !! (t, k)) as [v|] eqn:Em; [|done].
    intros [= <-]. split; [done|].
    destruct (I2 _ _ _ Em) as (_ & _ & Hd).
    unfold path_exists. rewrite Hd. apply bool_decide_eq_true. by eexists.
Qed.

Lemma index_entry_all_keys (db : Database) (t k : string) :
  is_Some (index_entry db t k) <-> k ∈ all_keys db t.
Proof.
  unfold index_entry, all_keys. destruct (tables db !! t) as [idx|].
  - apply dict_get_keys.
  - split; [by intros [? ?]|by intros ?%elem_of_nil].
Qed.

Lemma run_op_NoDup (db db' : Database) (o : op) :
  (forall t, NoDup (all_keys db t)) -> run_op db o = Ok db' ->
  forall t, NoDup (all_keys db' t).
Proof.
  intros Hnd Hrun t'. destruct o as [t k v|t k]; simpl in Hrun.
  - rewrite set_succeeds in Hrun. injection Hrun as <-.
    unfold all_keys. simpl. destruct (decide (t' = t)) as [->|Hne].
    + rewrite lookup_insert_eq. apply dict_keys_set_NoDup.
      specialize (Hnd t). unfold all_keys in Hnd.
      destruct (tables db !! t); [done|apply NoDup_nil_2].
    + rewrite lookup_insert_ne by done. apply Hnd.
  - rewrite delete_result in Hrun.
    destruct (tables db !! t) as [idx|] eqn:Et;
      [|injection Hrun as <-; apply Hnd].
    assert (Hgoal : NoDup (match <[t := dict_remove k idx]> (tables db) !! t'
                           with Some i => dict_keys i | None => [] end)).
    { destruct (decide (t' = t)) as [->|Hne].
      - rewrite lookup_insert_eq. apply dict_keys_remove_NoDup.
        specialize (Hnd t). unfold all_keys in Hnd. by rewrite Et in Hnd.
      - rewrite lookup_insert_ne by done. apply Hnd. }
    simpl in Hrun. destruct (dict_get k idx) as [p|].
    + destruct (truthy p && _); by injection Hrun as <-.
    + by injection Hrun as <-.
Qed.

Lemma run_NoDup (ops : list op) : forall db db',
  (forall t, NoDup (all_keys db t)) -> run db ops = Ok db' ->
  forall t, NoDup (all_keys db' t).
Proof.
  induction ops as [|o ops IH]; intros db db' Hnd Hrun.
  - simpl in Hrun. by injection Hrun as <-.
  - simpl in Hrun. destruct (run_op db o) as [db1|e] eqn:E; [|done].
    eapply IH; [|done]. by eapply run_op_NoDup.
Qed.

(** X3: after such a run, [all_keys(table)] lists exactly the keys of the
    table that hold a value, each of them once. *)
Theorem all_keys_after_run (db0 : Database) (ops : list op) :
  tables db0 = ∅ ->
  Forall (fun o => simple_op o = true) ops ->
  exists db,
    run db0 ops = Ok db /\
    forall t,
      NoDup (all_keys db t) /\
      forall k, k ∈ all_keys db t <-> is_Some (apply_ops ∅ ops !! (t, k)).
Proof.
  intros H0 Hs. destruct (run_total ops db0) as [db Hrun].
  exists db. split; [done|]. intros t. split.
  - apply (run_NoDup ops db0 db); [|done]. intros t'. unfold all_keys.
    rewrite H0, lookup_empty. apply NoDup_nil_2.
  - intros k. rewrite <- index_entry_all_keys.
    destruct (consistent_run ops db0 db ∅ (consistent_fresh db0 H0) Hs Hrun)
      as (I1 & _). rewrite I1. apply fmap_is_Some.
Qed.

(** X5: a [set] that returns keeps the order of the keys: a key that
    the table already has stays where it is, a new key goes to the end;
    the keys of the other tables are as they were. *)
Theorem all_keys_after_set (db db' : Database) (t k : string) (v : json) :
  set db t k v = Ok db' ->
  all_keys db' t =
    (if decide (k ∈ all_keys db t) then all_keys db t
     else all_keys db t ++ [k]) /\
  forall t', t' <> t -> all_keys db' t' = all_keys db t'.
Proof.
  rewrite set_succeeds. intros [= <-]. unfold all_keys. simpl. split.
  - rewrite lookup_insert_eq, dict_keys_set.
    by destruct (tables db !! t).
  - intros t' Hne. by rewrite lookup_insert_ne.
Qed.

(** X6: a [delete] that returns has taken the key out of the keys of its
    table, kept the order of the keys that are left, and left the keys of
    the other tables as they were. *)
Theorem all_keys_after_delete (db db' : Database) (t k : string) :
  delete db t k = Ok db' ->
  all_keys db' t = filter (fun k' => k' <> k) (all_keys db t) /\
  forall t', t' <> t -> all_keys db' t' = all_keys db t'.
Proof.
  rewrite delete_result. unfold all_keys.
  destruct (tables db !! t) as [idx|] eqn:Et.
  2:{ intros [= <-]. rewrite Et. done. }
  assert (H1 : forall d b (db1 : Database),
    Ok (mkDatabase b (<[t := dict_remove k idx]> (tables db)) d) = Ok db1 ->
      match tables db1 !! t with Some i => dict_keys i | None => [] end =
        filter (fun k' => k' <> k) (dict_keys idx) /\
      forall t', t' <> t ->
        match tables db1 !! t' with Some i => dict_keys i | None => [] end =
        match tables db !! t' with Some i => dict_keys i | None => [] end).
  { intros d b db1 [= <-]. simpl. split.
    - by rewrite lookup_insert_eq, dict_keys_remove.
    - intros t' Hne. by rewrite lookup_insert_ne. }
  simpl. destruct (dict_get k idx) as [p|]; [|apply H1].
  destruct (truthy p && _); apply H1.
Qed.

(** X7: after a [delete] that returned, a second [delete] of the same key
    returns and changes nothing, neither in memory nor on the disk. *)
Theorem delete_twice (db db1 : Database) (t k : string) :
  delete db t k = Ok db1 -> delete db1 t k = Ok db1.
Proof.
  assert (H1 : forall idx d b,
    index_entry (mkDatabase b (<[t := dict_remove k idx]> (tables db)) d) t k
      = None).
  { intros idx d b. unfold index_entry. simpl.
    by rewrite lookup_insert_eq, dict_get_remove_eq. }
  rewrite delete_result. destruct (tables db !! t) as [idx|] eqn:Et.
  2:{ intros [= <-]. apply delete_absent.
      unfold index_entry. by rewrite Et. }
  simpl. destruct (dict_get k idx) as [p|].
  - destruct (truthy p && _); intros [= <-]; apply delete_absent, H1.
  - intros [= <-]. apply delete_absent, H1.
Qed.

(** In the model, [set] changes the [get] of another key only through
    the two paths that it writes. *)
Lemma set_frame_paths (db db' : Database) (t k t' k' : string)
    (v : json) :
  set db t k v = Ok db' ->
  (t', k') <> (t, k) ->
  (forall p, index_entry db t' k' = Some p ->
             p <> key_file db t k /\ p <> index_file db t) ->
  get db' t' k' = get db t' k'.
Proof.
  rewrite set_succeeds. intros [= <-] Hne Hp.
  rewrite !get_index_entry.
  assert (Hi : index_entry
     (mkDatabase (base_path db)
        (<[t := dict_set k (key_file db t k)
                  (default [] (tables db !! t))]> (tables db))
        (<[index_file db t :=
             json_dump (index_json (dict_set k (key_file db t k)
                                      (default [] (tables db !! t))))]>
           (<[key_file db t k := json_dump v]> (disk db)))) t' k'
     = index_entry db t' k').
  { unfold index_entry at 1. simpl.
    destruct (decide (t' = t)) as [->|Hnt].
    - rewrite lookup_insert_eq, dict_get_set_ne by congruence.
      apply index_entry_default.
    - by rewrite lookup_insert_ne. }
  rewrite Hi. destruct (index_entry db t' k') as [p|]; [|done].
  destruct (Hp p eq_refl) as [Hk Hx]. simpl.
  by rewrite !lookup_insert_ne.
Qed.

(** X8: [set] leaves the other keys alone.  With plain table names and
    keys without slash on both sides, and the other key indexed under its
    own value file (or not at all): after a [set] that returns, [get] of
    the other key gives what it gave before. *)
Theorem set_keeps_other_keys (db db' : Database) (t k t' k' : string)
    (v : json) :
  set db t k v = Ok db' ->
  simple_table t = true -> simple_key k = true ->
  simple_table t' = true -> simple_key k' = true ->
  (t', k') <> (t, k) ->
  (forall p, index_entry db t' k' = Some p -> p = key_file db t' k') ->
  get db' t' k' = get db t' k'.
Proof.
  intros Hset Ht Hk Ht' Hk' Hne Hown.
  apply (set_frame_paths db db' t k t' k' v Hset Hne).
  intros p Hp. rewrite (Hown p Hp). split.
  - intros E. apply key_file_inj in E as [-> ->]; done.
  - by apply key_file_not_index.
Qed.



End Refinement.

End StoreRefinement.

(** ** The store at start-up *)

Module StartupFacts.
Import Store StoreModel StoreFacts PathFacts.

Section Startup.
Context {codec : Codec}.

Lemma as_index_index_json (idx : dict string) :
  as_index (index_json idx) = Some idx.
Proof.
  unfold index_json. simpl. induction idx as [|[k p] idx IH]; [done|].
  simpl. by rewrite IH.
Qed.

Lemma load_known (isdir : string -> bool) (b : string)
    (T : gmap string (dict string)) (D : gmap string string)
    (names : list string) : forall T0,
  (forall t, t ∈ names -> isdir (path_join b t) = true ->
     exists idx,
       T !! t = Some idx /\
       D !! path_join (path_join b t) "index.json" =
         Some (json_dump (index_json idx)) /\
       codec_ok (index_json idx)) ->
  exists T',
    load_tables isdir names (mkDatabase b T0 D) = Loaded (mkDatabase b T' D) /\
    forall t,
      T' !! t = if decide (t ∈ names /\ isdir (path_join b t) = true)
                then T !! t else T0 !! t.
Proof.
  induction names as [|t names IH]; intros T0 Hn.
  - exists T0. split; [done|]. intros t.
    destruct (decide _) as [[Hin _]|_]; [|done]. by apply elem_of_nil in Hin.
  - cbn [load_tables base_path]. destruct (isdir (path_join b t)) eqn:Ed.
    + destruct (Hn t (list_elem_of_here _ _) Ed) as (idx & HT & HD & Hc).
      unfold path_exists. cbn [disk]. rewrite HD.
      rewrite bool_decide_eq_true_2 by by eexists.
      rewrite Hc, as_index_index_json. unfold with_tables. cbn.
      destruct (IH (<[t := idx]> T0)) as (T' & Hl & HT').
      { intros t' Hin. apply Hn. by right. }
      exists T'. split; [done|]. intros t'. rewrite HT'.
      destruct (decide (t' ∈ names /\ _)) as [[Hin Hd]|Hno].
      * rewrite decide_True; [done|]. split; [by right|done].
      * destruct (decide (t' = t)) as [->|Hne].
        -- rewrite lookup_insert_eq, decide_True; [done|].
           split; [by left|done].
        -- rewrite lookup_insert_ne by done. rewrite decide_False; [done|].
           intros [[?|?]%elem_of_cons ?]; [done|]. by apply Hno.
    + destruct (IH T0) as (T' & Hl & HT').
      { intros t' Hin. apply Hn. by right. }
      exists T'. split; [done|]. intros t'. rewrite HT'.
      destruct (decide (t' ∈ names /\ _)) as [[Hin Hd]|Hno].
      * rewrite decide_True; [done|]. split; [by right|done].
      * rewrite decide_False; [done|].
        intros [[->|?]%elem_of_cons ?]; [congruence|]. by apply Hno.
Qed.

(** X9: a restart restores the index.  When the directories listed under
    the root are exactly the known tables, the [index.json] of each holds
    the dump of its in-memory index and [json.load] reads that dump back,
    a new [Database] on the same files has the same [tables] and leaves
    the files as they are. *)
Theorem reload_restores_tables (isdir : string -> bool) (names : list string)
    (db : Database) :
  (forall t, is_Some (tables db !! t) <->
             t ∈ names /\ isdir (path_join (base_path db) t) = true) ->
  (forall t idx, tables db !! t = Some idx ->
     disk db !! index_file db t = Some (json_dump (index_json idx)) /\
     codec_ok (index_json idx)) ->
  new_database isdir names (base_path db) (disk db) = Loaded db.
Proof.
  intros Hdom Hsync. unfold new_database.
  destruct (load_known isdir (base_path db) (tables db) (disk db) names ∅)
    as (T' & Hl & HT').
  { intros t Hin Hd. destruct (proj2 (Hdom t) (conj Hin Hd)) as [idx Hidx].
    exists idx. split; [done|]. by apply Hsync. }
  rewrite Hl. f_equal. destruct db as [b T D]. simpl in *. f_equal.
  apply map_eq. intros t. rewrite HT'.
  destruct (decide _) as [_|Hno]; [done|]. rewrite lookup_empty.
  destruct (T !! t) eqn:E; [|done]. exfalso. apply Hno, Hdom. by eexists.
Qed.

Lemma load_fresh (isdir : string -> bool) (b : string)
    (names : list string) : forall T0 D,
  NoDup names -> Forall (fun t => simple_table t = true) names ->
  (forall t, t ∈ names -> isdir (path_join b t) = true ->
     D !! path_join (path_join b t) "index.json" = None) ->
  exists T' D',
    load_tables isdir names (mkDatabase b T0 D) =
      Loaded (mkDatabase b T' D') /\
    (forall t,
      T' !! t = if decide (t ∈ names /\ isdir (path_join b t) = true)
                then Some [] else T0 !! t) /\
    (forall t, t ∈ names -> isdir (path_join b t) = true ->
       D' !! path_join (path_join b t) "index.json" =
         Some (json_dump (JObj []))) /\
    (forall p,
       (forall t, t ∈ names -> isdir (path_join b t) = true ->
                  p <> path_join (path_join b t) "index.json") ->
       D' !! p = D !! p).
Proof.
  induction names as [|t names IH]; intros T0 D Hnd Hs Hn.
  - exists T0, D. split; [done|]. split; [|split].
    + intros t. destruct (decide _) as [[Hin _]|_]; [|done].
      by apply elem_of_nil in Hin.
    + by intros t Hin%elem_of_nil.
    + done.
  - apply NoDup_cons in Hnd as [Hnot Hnd].
    inversion Hs as [|? ? Ht Hs']; subst.
    assert (Hinj : forall t', t' ∈ names ->
      path_join (path_join b t') "index.json" <>
      path_join (path_join b t) "index.json").
    { intros t' Hin E.
      apply (index_file_inj (mkDatabase b T0 D) t' t) in E; [congruence| |done].
      by apply (proj1 (Forall_forall _ _) Hs'). }
    cbn [load_tables base_path]. destruct (isdir (path_join b t)) eqn:Ed.
    + unfold path_exists. cbn [disk].
      rewrite (Hn t (list_elem_of_here _ _) Ed).
      rewrite bool_decide_eq_false_2 by (by intros [? ?]).
      unfold with_tables, with_disk. cbn.
      destruct (IH (<[t := []]> T0)
                  (<[path_join (path_join b t) "index.json" :=
                       json_dump (JObj [])]> D) Hnd Hs')
        as (T' & D' & Hl & HT' & HD' & Hother).
      { intros t' Hin Hd. rewrite lookup_insert_ne by (symmetry; by apply Hinj).
        apply Hn; [by right|done]. }
      exists T', D'. split; [done|]. split; [|split].
      * intros t'. rewrite HT'.
        destruct (decide (t' ∈ names /\ _)) as [[Hin Hd]|Hno].
        -- rewrite decide_True; [done|]. split; [by right|done].
        -- destruct (decide (t' = t)) as [->|Hne].
           ++ rewrite lookup_insert_eq, decide_True; [done|].
              split; [by left|done].
           ++ rewrite lookup_insert_ne by done. rewrite decide_False; [done|].
              intros [[?|?]%elem_of_cons ?]; [done|]. by apply Hno.
      * intros t' [->|Hin]%elem_of_cons Hd; [|by apply HD'].
        rewrite Hother; [apply lookup_insert_eq|].
        intros t'' Hin _ E. by apply (Hinj t'' Hin).
      * intros p Hp. rewrite Hother.
        -- rewrite lookup_insert_ne; [done|].
           intros E. by apply (Hp t (list_elem_of_here _ _) Ed).
        -- intros t' Hin Hd. apply Hp; [by right|done].
    + destruct (IH T0 D Hnd Hs') as (T' & D' & Hl & HT' & HD' & Hother).
      { intros t' Hin. apply Hn. by right. }
      exists T', D'. split; [done|]. split; [|split].
      * intros t'. rewrite HT'.
        destruct (decide (t' ∈ names /\ _)) as [[Hin Hd]|Hno].
        -- rewrite decide_True; [done|]. split; [by right|done].
        -- rewrite decide_False; [done|].
           intros [[->|?]%elem_of_cons ?]; [congruence|]. by apply Hno.
      * intros t' [->|Hin]%elem_of_cons Hd; [congruence|by apply HD'].
      * intros p Hp. apply Hother. intros t' Hin. apply Hp. by right.
Qed.

(** X10: start-up on directories that have no [index.json] yet.  When the
    names listed under the root are distinct plain names, a new [Database]
    knows exactly the listed directories, each with an empty index, has
    written the dump of an empty object to the [index.json] of each, has
    passed over the names that are not directories, and has left every
    other file as it was. *)
Theorem new_database_creates_indexes (isdir : string -> bool)
    (names : list string) (b : string) (files : gmap string string) :
  NoDup names -> Forall (fun t => simple_table t = true) names ->
  (forall t, t ∈ names -> isdir (path_join b t) = true ->
     files !! path_join (path_join b t) "index.json" = None) ->
  exists db,
    new_database isdir names b files = Loaded db /\
    base_path db = b /\
    (forall t,
       tables db !! t =
         if decide (t ∈ names /\ isdir (path_join b t) = true)
         then Some [] else None) /\
    (forall t, t ∈ names -> isdir (path_join b t) = true ->
       disk db !! index_file db t = Some (json_dump (JObj []))) /\
    (forall p,
       (forall t, t ∈ names -> isdir (path_join b t) = true ->
                  p <> path_join (path_join b t) "index.json") ->
       disk db !! p = files !! p).
Proof.
  intros Hnd Hs Hn.
  destruct (load_fresh isdir b names ∅ files Hnd Hs Hn)
    as (T' & D' & Hl & HT' & HD' & Hother).
  exists (mkDatabase b T' D'). split; [done|]. split; [done|].
  split; [|split]; [|done..].
  intros t. rewrite HT'. destruct (decide _); [done|apply lookup_empty].
Qed.

End Startup.

End StartupFacts.

(** ** Splitting and joining *)

Module SplitFacts.
Import Http Wire DictFacts.

Lemma split_go_cons (sep : string) (c : ascii) (s : string) :
  split_go sep 0 (String c s) =
    if startswith sep (String c s)
    then "" :: split_go sep (String.length sep - 1) s
    else match split_go sep 0 s with
         | x :: r => String c x :: r
         | [] => [String c ""]
         end.
Proof. reflexivity. Qed.

Lemma split_go_nonnil (sep : string) (s : string) :
  forall k, split_go sep k s <> [].
Proof.
  induction s as [|c s IH]; intros k; [done|]. destruct k as [|k].
  - rewrite split_go_cons. destruct (startswith sep _); [done|].
    by destruct (split_go sep 0 s).
  - apply IH.
Qed.

Lemma join_cons (sep x : string) (l : list string) :
  l <> [] -> join sep (x :: l) = x +:+ sep +:+ join sep l.
Proof. by destruct l. Qed.

Lemma join_char (sep : string) (c : ascii) (x : string) (r : list string) :
  join sep (String c x :: r) = String c (join sep (x :: r)).
Proof. by destruct r. Qed.

Lemma startswith_drop (p : string) : forall s,
  startswith p s = true -> p +:+ str_drop (String.length p) s = s.
Proof.
  induction p as [|a p IH]; intros s H; [done|].
  destruct s as [|b s]; [done|]. simpl in H.
  destruct (Ascii.eqb_spec a b) as [->|]; [|done].
  rewrite append_cons. change (String.length (String b p)) with (S (String.length p)).
  simpl. by rewrite IH.
Qed.

(** [sep.join(s.split(sep))] is [s]. *)
Lemma join_split_go (sep : string) (s : string) :
  sep <> "" -> forall k, join sep (split_go sep k s) = str_drop k s.
Proof.
  intros Hsep. induction s as [|c s IH]; intros k; [by destruct k|].
  destruct k as [|k]; [|apply IH].
  rewrite split_go_cons. destruct (startswith sep (String c s)) eqn:E.
  - rewrite join_cons by apply split_go_nonnil. rewrite IH.
    destruct sep as [|d sep]; [done|].
    change (String.length (String d sep) - 1) with (String.length sep - 0).
    rewrite Nat.sub_0_r. rewrite append_nil_l.
    apply startswith_drop in E.
    change (String.length (String d sep)) with (S (String.length sep)) in E.
    by simpl in E.
  - specialize (IH 0). simpl in IH.
    destruct (split_go sep 0 s) as [|x r] eqn:Es.
    + by apply split_go_nonnil in Es.
    + by rewrite join_char, IH.
Qed.

Lemma join_split (sep s : string) : sep <> "" -> join sep (split sep s) = s.
Proof. intros H. by apply (join_split_go sep s H 0). Qed.

Lemma not_lf_head (a b : string) :
  one_line a = true -> startswith (String LF "") (a +:+ crlf +:+ b) = false.
Proof.
  destruct a as [|c a]; [done|]. unfold one_line. cbn [all_chars].
  intros [Hc _]%andb_true_iff.
  change (startswith (String LF "") (String c a +:+ crlf +:+ b))
    with (if Ascii.eqb LF c then true else false).
  apply negb_true_iff in Hc. rewrite Ascii.eqb_sym in Hc. by rewrite Hc.
Qed.

Lemma split_crlf_cons (a b : string) :
  one_line a = true -> split crlf (a +:+ crlf +:+ b) = a :: split crlf b.
Proof.
  unfold split. induction a as [|c a IH]; intros Ha; [reflexivity|].
  assert (Ha' : one_line a = true).
  { unfold one_line in *. simpl in Ha. by apply andb_true_iff in Ha as [_ ?]. }
  rewrite append_cons, split_go_cons.
  change (startswith crlf (String c (a +:+ crlf +:+ b)))
    with (if Ascii.eqb CR c
          then startswith (String LF "") (a +:+ crlf +:+ b) else false).
  rewrite not_lf_head by done. rewrite IH by done.
  by destruct (Ascii.eqb CR c).
Qed.

Lemma split_crlf_one (a : string) : one_line a = true -> split crlf a = [a].
Proof.
  unfold split. induction a as [|c a IH]; intros Ha; [reflexivity|].
  assert (Ha' : one_line a = true).
  { unfold one_line in *. simpl in Ha. by apply andb_true_iff in Ha as [_ ?]. }
  rewrite split_go_cons.
  change (startswith crlf (String c a))
    with (if Ascii.eqb CR c then startswith (String LF "") a else false).
  assert (Hn : startswith (String LF "") a = false).
  { destruct a as [|d a]; [done|]. unfold one_line in Ha'.
    cbn [all_chars] in Ha'.
    apply andb_true_iff in Ha' as [Hd _]. apply negb_true_iff in Hd.
    change (startswith (String LF "") (String d a))
      with (if Ascii.eqb LF d then true else false).
    rewrite Ascii.eqb_sym in Hd. by rewrite Hd. }
  rewrite Hn, IH by done. by destruct (Ascii.eqb CR c).
Qed.

Lemma split_space_cons (a b : string) :
  no_space a = true -> split " " (a +:+ " " +:+ b) = a :: split " " b.
Proof.
  unfold split. induction a as [|c a IH]; intros Ha; [reflexivity|].
  unfold no_space in Ha. simpl in Ha. apply andb_true_iff in Ha as [Hc Ha].
  rewrite append_cons, split_go_cons.
  change (startswith " " (String c (a +:+ " " +:+ b)))
    with (if Ascii.eqb " " c then true else false).
  apply negb_true_iff in Hc. rewrite Ascii.eqb_sym in Hc. rewrite Hc.
  by rewrite IH.
Qed.

Lemma split_once_colon (k v : string) :
  no_colon k = true -> split_once ": " (k +:+ ": " +:+ v) = Some (k, v).
Proof.
  induction k as [|c k IH]; intros Hk; [reflexivity|].
  unfold no_colon in Hk. simpl in Hk. apply andb_true_iff in Hk as [Hc Hk].
  rewrite append_cons. cbn [split_once].
  change (startswith ": " (String c (k +:+ ": " +:+ v)))
    with (if Ascii.eqb ":" c then startswith " " (k +:+ ": " +:+ v) else false).
  apply negb_true_iff in Hc. rewrite Ascii.eqb_sym in Hc. rewrite Hc.
  by rewrite IH.
Qed.

Lemma one_line_app (a b : string) :
  one_line (a +:+ b) = one_line a && one_line b.
Proof.
  unfold one_line. induction a as [|c a IH]; [done|].
  rewrite append_cons. simpl. by rewrite IH, andb_assoc.
Qed.

Lemma header_line_one_line (kv : string * string) :
  header_ok kv = true -> one_line (header_line kv) = true.
Proof.
  unfold header_ok, header_line. rewrite !andb_true_iff.
  intros [[_ H1] H2]. rewrite !one_line_app, H1, H2. reflexivity.
Qed.

Lemma split_lines (ls : list string) (rest : string) :
  ls <> [] -> Forall (fun l => one_line l = true) ls ->
  split crlf (join crlf ls +:+ crlf +:+ rest) = ls ++ split crlf rest.
Proof.
  induction ls as [|l ls IH]; intros Hne Hall; [done|].
  inversion Hall as [|? ? Hl Hls]; subst.
  destruct ls as [|l' ls].
  - simpl. by apply split_crlf_cons.
  - rewrite join_cons by done. rewrite !append_assoc.
    rewrite split_crlf_cons by done. by rewrite IH.
Qed.

Lemma split_lines_end (ls : list string) :
  ls <> [] -> Forall (fun l => one_line l = true) ls ->
  split crlf (join crlf ls) = ls.
Proof.
  induction ls as [|l ls IH]; intros Hne Hall; [done|].
  inversion Hall as [|? ? Hl Hls]; subst.
  destruct ls as [|l' ls].
  - simpl. by apply split_crlf_one.
  - rewrite join_cons by done. rewrite split_crlf_cons by done.
    by rewrite IH.
Qed.

Lemma parse_headers_block (hdrs rest : list string) : forall h0,
  Forall (fun l => truthy l = true) hdrs ->
  parse_headers (hdrs ++ "" :: rest) h0 = (fold_left add_header hdrs h0, rest).
Proof.
  induction hdrs as [|l hdrs IH]; intros h0 Hall; [done|].
  inversion Hall as [|? ? Hl Hls]; subst. simpl. rewrite Hl. by apply IH.
Qed.

Lemma parse_headers_all (hdrs : list string) : forall h0,
  Forall (fun l => truthy l = true) hdrs ->
  parse_headers hdrs h0 = (fold_left add_header hdrs h0, []).
Proof.
  induction hdrs as [|l hdrs IH]; intros h0 Hall; [done|].
  inversion Hall as [|? ? Hl Hls]; subst. simpl. rewrite Hl. by apply IH.
Qed.

Lemma add_header_line (h : dict string) (kv : string * string) :
  header_ok kv = true -> add_header h (header_line kv) = dict_set kv.1 kv.2 h.
Proof.
  unfold header_ok, header_line, add_header. rewrite !andb_true_iff.
  intros [[H _] _]. by rewrite split_once_colon.
Qed.

Lemma fold_header_lines (hs : list (string * string)) : forall h0,
  Forall (fun kv => header_ok kv = true) hs ->
  fold_left add_header (map header_line hs) h0 = set_all hs h0.
Proof.
  unfold set_all. induction hs as [|kv hs IH]; intros h0 Hall; [done|].
  inversion Hall as [|? ? Hkv Hhs]; subst. simpl.
  rewrite add_header_line by done. by apply IH.
Qed.

Lemma truthy_header_line (kv : string * string) :
  truthy (header_line kv) = true.
Proof.
  unfold header_line. rewrite !truthy_append. simpl. apply orb_true_r.
Qed.

Lemma set_all_distinct (hs : list (string * string)) : forall d,
  NoDup (dict_keys (d ++ hs)) -> set_all hs d = d ++ hs.
Proof.
  unfold set_all, dict_keys.
  induction hs as [|[k v] hs IH]; intros d Hnd; [by rewrite app_nil_r|].
  simpl. rewrite dict_set_fresh.
  - rewrite IH; [by rewrite <- app_assoc|]. by rewrite <- app_assoc.
  - destruct (dict_get k d) eqn:E; [|done]. exfalso.
    assert (Hin : k ∈ dict_keys d) by (apply dict_get_keys; by eexists).
    rewrite map_app in Hnd. apply NoDup_app in Hnd as (_ & Hdis & _).
    apply (Hdis k Hin). simpl. by left.
Qed.

Lemma parse_request_sent (request_line : string)
    (hs : list (string * string)) (body : string) :
  one_line request_line = true ->
  Forall (fun kv => header_ok kv = true) hs ->
  parse_request (request_text request_line hs body) =
    (request_line, set_all hs [], body).
Proof.
  intros Hrl Hhs.
  assert (Hlines : Forall (fun l => one_line l = true)
                     (request_line :: map header_line hs)).
  { constructor; [done|]. apply Forall_map.
    eapply Forall_impl; [exact Hhs|]. apply header_line_one_line. }
  assert (Htruthy : Forall (fun l => truthy l = true) (map header_line hs)).
  { apply Forall_map, Forall_forall. intros kv _. apply truthy_header_line. }
  unfold parse_request, request_text.
  rewrite split_lines by done.
  change (split crlf (crlf +:+ body)) with ("" :: split crlf body).
  cbn [app hd tl]. rewrite parse_headers_block by done.
  rewrite fold_header_lines by done. by rewrite join_split.
Qed.

(** X11: [__parse_request] reads back a request as it is sent.  For the
    text made of a request line, one [name: value] line for each header,
    an empty line and a body, where the lines hold no line feed and the
    names no colon, it returns the request line, the mapping that sets
    each header in order (the headers themselves when their names are
    distinct), and the body, whatever the body holds.  Without the empty
    line and the body, every line after the first is a header and the body
    is empty. *)
Theorem parse_request_roundtrip (request_line : string)
    (hs : list (string * string)) (body : string) :
  one_line request_line = true ->
  Forall (fun kv => header_ok kv = true) hs ->
  parse_request (request_text request_line hs body) =
    (request_line, set_all hs [], body) /\
  parse_request (join crlf (request_line :: map header_line hs)) =
    (request_line, set_all hs [], "") /\
  (NoDup (dict_keys hs) -> set_all hs [] = hs).
Proof.
  intros Hrl Hhs. split; [by apply parse_request_sent|]. split.
  - assert (Hlines : Forall (fun l => one_line l = true)
                       (request_line :: map header_line hs)).
    { constructor; [done|]. apply Forall_map.
      eapply Forall_impl; [exact Hhs|]. apply header_line_one_line. }
    assert (Htruthy : Forall (fun l => truthy l = true) (map header_line hs)).
    { apply Forall_map, Forall_forall. intros kv _. apply truthy_header_line. }
    unfold parse_request. rewrite split_lines_end by done.
    cbn [hd tl]. rewrite parse_headers_all by done.
    by rewrite fold_header_lines.
  - intros Hnd. by apply (set_all_distinct hs []).
Qed.

End SplitFacts.

(** ** The connection handler on requests as they are sent *)

Module ConnectionFacts.
Import Http Wire SplitFacts.

Section Server.
Context {handler : Type}.
Context {codec : Codec} {decoder : Decoder}.
Implicit Types (routes : list (@route handler)).

Lemma handle_client_sent (routes : list (@route handler)) (data : bytes)
    (w : writer) (meth pth rest : string) (hs : list (string * string))
    (body : string) :
  data <> [] ->
  decode data = request_text (meth +:+ " " +:+ pth +:+ " " +:+ rest) hs body ->
  no_space meth = true -> no_space pth = true ->
  one_line (meth +:+ " " +:+ pth +:+ " " +:+ rest) = true ->
  Forall (fun kv => header_ok kv = true) hs ->
  handle_client routes data w =
    match new_request meth pth (set_all hs []) body with
    | Raise e => Raised e w
    | Ok req =>
        match dispatch routes meth pth with
        | Some (h, kwargs) => Handled h req w kwargs
        | None => Returned (send w "404 Not Found" 404 "text/plain")
        end
    end.
Proof.
  intros Hdata Hdec Hm Hp Hrl Hhs. unfold handle_client.
  destruct data as [|b data]; [done|]. rewrite Hdec.
  rewrite parse_request_sent by done.
  rewrite !split_space_cons by done.
  destruct (split " " rest) as [|x r] eqn:Er.
  { by apply split_go_nonnil in Er. }
  reflexivity.
Qed.

(** X12: no request reaches a handler.  For the bytes of a request line
    [method path rest], header lines, an empty line and a body that is
    empty or holds JSON, [__handle_client] parses the request and then
    fails to build the [Request]: the assignment of [bodyJson], which
    [__slots__] does not list, raises [AttributeError].  Whatever the
    routes are, no handler is called, no 404 is sent, nothing is written
    and the stream is not closed. *)
Theorem wellformed_request_raises (routes : list (@route handler))
    (data : bytes) (w : writer) (meth pth rest : string)
    (hs : list (string * string)) (body : string) :
  data <> [] ->
  decode data = request_text (meth +:+ " " +:+ pth +:+ " " +:+ rest) hs body ->
  no_space meth = true -> no_space pth = true ->
  one_line (meth +:+ " " +:+ pth +:+ " " +:+ rest) = true ->
  Forall (fun kv => header_ok kv = true) hs ->
  truthy body = false \/ is_Some (json_load body) ->
  handle_client routes data w = Raised AttributeError w.
Proof.
  intros Hdata Hdec Hm Hp Hrl Hhs Hj.
  rewrite (handle_client_sent routes data w meth pth rest hs body) by done.
  unfold new_request. destruct Hj as [->|[j Hj]]; [done|].
  destruct (truthy body); [by rewrite Hj|done].
Qed.

(** X13: a body that is not JSON stops the request before any route is
    tried: [Request.__init__] raises the decode error of [json.loads],
    whatever the routes are, and [__handle_client] has then written
    nothing and has not closed the stream. *)
Theorem bad_json_body_raises (routes : list (@route handler))
    (data : bytes) (w : writer) (meth pth rest : string)
    (hs : list (string * string)) (body : string) :
  data <> [] ->
  decode data = request_text (meth +:+ " " +:+ pth +:+ " " +:+ rest) hs body ->
  no_space meth = true -> no_space pth = true ->
  one_line (meth +:+ " " +:+ pth +:+ " " +:+ rest) = true ->
  Forall (fun kv => header_ok kv = true) hs ->
  truthy body = true -> json_load body = None ->
  handle_client routes data w = Raised JSONDecodeError w.
Proof.
  intros Hdata Hdec Hm Hp Hrl Hhs Hb Hj.
  rewrite (handle_client_sent routes data w meth pth rest hs body) by done.
  unfold new_request. by rewrite Hb, Hj.
Qed.


End Server.

End ConnectionFacts.

(** ** More on the router *)

Module DispatchFacts.
Import Http Wire RouterFacts DictFacts.

Lemma greedy_inv {R : Type} (ok : ascii -> bool) (s : string) :
  forall (k : string -> string -> option R) (r : R),
    greedy ok k s = Some r ->
    exists taken rest,
      s = taken +:+ rest /\ all_chars ok taken = true /\ k taken rest = Some r.
Proof.
  induction s as [|c s IH]; intros k r H.
  - exists "", "". by repeat split.
  - simpl in H. destruct (ok c) eqn:Ec.
    + destruct (greedy ok (fun taken rest => k (String c taken) rest) s)
        as [r'|] eqn:Eg.
      * injection H as ->. destruct (IH _ _ Eg) as (taken & rest & -> & Ht & Hk).
        exists (String c taken), rest. split; [done|]. split; [|done].
        simpl. by rewrite Ec, Ht.
      * exists "", (String c s). by repeat split.
    + exists "", (String c s). by repeat split.
Qed.

Lemma greedy1_inv {R : Type} (ok : ascii -> bool) (s : string)
    (k : string -> string -> option R) (r : R) :
  greedy1 ok k s = Some r ->
  exists taken rest,
    s = taken +:+ rest /\ truthy taken = true /\
    all_chars ok taken = true /\ k taken rest = Some r.
Proof.
  destruct s as [|c s]; [done|]. simpl. destruct (ok c) eqn:Ec; [|done].
  intros H. apply greedy_inv in H as (taken & rest & -> & Ht & Hk).
  exists (String c taken), rest. split; [done|]. split; [done|].
  split; [|done]. simpl. by rewrite Ec, Ht.
Qed.

(** What a match adds to the groups: one entry for each group of the
    pattern, whose value is not empty and has no slash. *)
Lemma match_items_groups (final : string -> bool) (items : regex) :
  forall start s g r,
    match_items final items start s g = Some r ->
    (forall name,
        is_Some (dict_get name r) <->
        is_Some (dict_get name g) \/ name ∈ param_names items) /\
    (forall name v,
        dict_get name r = Some v ->
        dict_get name g = Some v \/
        (truthy v = true /\ all_chars not_slash v = true)).
Proof.
  induction items as [|it items IH]; intros start s g r H.
  - simpl in H. destruct (final s); [|done]. injection H as <-. split.
    + intros name. split; [by left|]. intros [?|Hin]; [done|].
      by apply elem_of_nil in Hin.
    + intros name v Hv. by left.
  - destruct it as [a|a|a|a|pname| |]; cbn [match_items param_names] in H |- *.
    + destruct s as [|c s]; [done|]. destruct (atom_ok a c); [|done].
      by apply IH in H.
    + apply greedy_inv in H as (taken & rest & _ & _ & H). by apply IH in H.
    + apply greedy1_inv in H as (taken & rest & _ & _ & _ & H).
      by apply IH in H.
    + destruct s as [|c s]; [by apply IH in H|].
      destruct (atom_ok a c); [|by apply IH in H].
      destruct (match_items final items false s g) as [g'|] eqn:E.
      * injection H as <-. by apply IH in E.
      * by apply IH in H.
    + apply greedy1_inv in H as (taken & rest & _ & Ht & Hns & H).
      apply IH in H as [Hkeys Hvals]. split.
      * intros name. rewrite Hkeys, elem_of_cons.
        destruct (decide (name = pname)) as [->|Hne].
        -- rewrite dict_get_set_eq. split; [|by intros _; left; eexists].
           intros _. right. by left.
        -- rewrite dict_get_set_ne by done. split; [tauto|].
           intros [?|[?|?]]; [by left|done|by right].
      * intros name v Hv. destruct (Hvals name v Hv) as [Hg|?]; [|by right].
        destruct (decide (name = pname)) as [->|Hne].
        -- rewrite dict_get_set_eq in Hg. injection Hg as <-. by right.
        -- rewrite dict_get_set_ne in Hg by done. by left.
    + destruct start; [|done]. by apply IH in H.
    + destruct (at_end s); [|done]. by apply IH in H.
Qed.

Section Routes.
Context {handler : Type}.
Implicit Types (routes : list (@route handler)) (h : handler).

Lemma dispatch_app (routes more : list (@route handler)) (meth pth : string) :
  dispatch (routes ++ more) meth pth =
    match dispatch routes meth pth with
    | Some r => Some r
    | None => dispatch more meth pth
    end.
Proof.
  induction routes as [|[[m rx] h] routes IH]; [done|]. simpl.
  destruct (String.eqb m meth); [|done]. by destruct (re_match rx pth).
Qed.

Lemma dispatch_Some_inv (routes : list (@route handler)) (meth pth : string)
    (h : handler) (kwargs : dict string) :
  dispatch routes meth pth = Some (h, kwargs) ->
  exists rx, (meth, rx, h) ∈ routes /\ re_match rx pth = Some kwargs.
Proof.
  induction routes as [|[[m rx] h0] routes IH]; [done|]. simpl.
  destruct (String.eqb_spec m meth) as [->|Hne].
  - destruct (re_match rx pth) as [g|] eqn:E.
    + intros [= <- <-]. exists rx. split; [by left|done].
    + intros H. destruct (IH H) as (rx' & Hin & Hm).
      exists rx'. split; [by right|done].
  - intros H. destruct (IH H) as (rx' & Hin & Hm).
    exists rx'. split; [by right|done].
Qed.

(** X14: registering a route never takes a request away from the routes
    registered before it.  When [on] returns, the new route is the last of
    the list, and a request goes to the handler it went to before; only a
    request that no earlier route took is tried against the new route. *)
Theorem on_keeps_earlier_routes (routes routes' : list (@route handler))
    (pattern m : string) (h : handler) :
  on routes pattern m h = Ok routes' ->
  exists rx,
    routes' = routes ++ [(m, rx, h)] /\
    forall meth pth,
      dispatch routes' meth pth =
        match dispatch routes meth pth with
        | Some r => Some r
        | None =>
            if String.eqb m meth
            then (fun kwargs => (h, kwargs)) <$> re_match rx pth
            else None
        end.
Proof.
  unfold on. destruct (re_compile _) as [rx|]; [|done]. intros [= <-].
  exists rx. split; [done|]. intros meth pth. rewrite dispatch_app.
  destruct (dispatch routes meth pth); [done|]. simpl.
  destruct (String.eqb m meth); [|done]. by destruct (re_match rx pth).
Qed.

Lemma lit_atom_literal (c : ascii) :
  literal_char c = true -> lit_atom c = ALit c.
Proof.
  unfold literal_char, lit_atom. intros [_ H]%andb_true_iff.
  apply negb_true_iff in H. by rewrite H.
Qed.

Lemma literal_plain (text : string) :
  all_chars literal_char text = true -> all_chars plain_char text = true.
Proof.
  apply all_chars_impl. unfold literal_char. by intros c [? _]%andb_true_iff.
Qed.

Lemma match_literal (text : string) : forall start s g r,
  all_chars literal_char text = true ->
  match_items (fun _ => true) (lit_items text ++ [IEol]) start s g = Some r <->
  r = g /\ (s = text \/ s = text +:+ String LF "").
Proof.
  induction text as [|c text IH]; intros start s g r Hlit.
  - cbn [lit_items app match_items]. rewrite append_nil_l.
    destruct s as [|d [|e s]]; cbn [at_end].
    + split.
      * intros H. injection H as <-. split; [done|by left].
      * by intros [-> _].
    + destruct (Ascii.eqb_spec d LF) as [->|Hne].
      * split.
        -- intros H. injection H as <-. split; [done|by right].
        -- by intros [-> _].
      * split; [done|]. intros [_ [H|H]]; [done|].
        injection H as H. done.
    + split; [done|]. intros [_ [H|H]]; done.
  - cbn [all_chars] in Hlit. apply andb_true_iff in Hlit as [Hc Hlit].
    cbn [lit_items app match_items]. rewrite (lit_atom_literal c Hc).
    rewrite append_cons. destruct s as [|d s].
    + split; [done|]. intros [_ [H|H]]; done.
    + cbn [atom_ok]. destruct (Ascii.eqb_spec c d) as [E|Hne].
      * subst d. rewrite IH by done. split.
        -- intros [-> [-> | ->]]; split; auto.
        -- intros [-> [H|H]]; injection H as ->; split; auto.
      * split; [done|]. intros [_ [H|H]]; injection H as H _; done.
Qed.

(** X16: a route without bracketed segment.  For a pattern of characters
    that mean only themselves to [re], [on] registers the route, and its
    compiled pattern matches the pattern's own text and that text followed
    by one line feed, and nothing else; the match has no group. *)
Theorem literal_route (routes : list (@route handler)) (text m : string)
    (h : handler) :
  all_chars literal_char text = true ->
  exists rx,
    on routes text m h = Ok (routes ++ [(m, rx, h)]) /\
    forall pth kwargs,
      re_match rx pth = Some kwargs <->
      kwargs = [] /\ (pth = text \/ pth = text +:+ String LF "").
Proof.
  intros Hlit. exists (IBol :: lit_items text ++ [IEol]). split.
  - unfold on.
    pose proof (re_compile_segs [Lit text]) as Hc.
    cbn [segs_ok pattern_text regex_items] in Hc.
    rewrite append_nil_r, app_nil_r, andb_true_r in Hc.
    by rewrite (Hc (literal_plain text Hlit)).
  - intros pth kwargs. unfold re_match. cbn [match_items].
    by apply match_literal.
Qed.

Lemma re_sub_shape (segs : list seg) :
  segs_shape segs = true -> re_sub (pattern_text segs) = regex_text segs.
Proof.
  unfold re_sub. induction segs as [|[text|name value] r IH]; [done|..];
    cbn [segs_shape pattern_text regex_text].
  - intros [Ht Hr]%andb_true_iff. rewrite sub_go_lit by done. by rewrite IH.
  - rewrite !andb_true_iff. intros [[Hid Hw] Hr].
    rewrite sub_go_param by done. by rewrite IH.
Qed.

Lemma no_quant_regex_shape (segs : list seg) :
  segs_shape segs = true -> no_quant (regex_text segs +:+ "$") = true.
Proof.
  induction segs as [|[text|name value] r IH]; [done|..];
    cbn [segs_shape regex_text].
  - intros [Ht Hr]%andb_true_iff. rewrite append_assoc.
    apply no_quant_lit; auto.
  - done.
Qed.

Lemma parse_segs_dup (segs : list seg) : forall fuel seen,
  segs_shape segs = true ->
  ~ NoDup (seg_names segs) \/ (exists n, n ∈ seg_names segs /\ n ∈ seen) ->
  String.length (regex_text segs +:+ "$") < fuel ->
  parse fuel seen (regex_text segs +:+ "$") = None.
Proof.
  induction segs as [|[text|name value] r IH]; intros fuel seen Hok Hdup Hlen;
    cbn [segs_shape regex_text seg_names] in *.
  - destruct Hdup as [Hd|(n & Hin & _)].
    + exfalso. apply Hd. constructor.
    + by apply elem_of_nil in Hin.
  - apply andb_true_iff in Hok as [Ht Hr]. rewrite append_assoc in Hlen |- *.
    rewrite parse_lit; [| done | by apply no_quant_regex_shape | done].
    rewrite length_append in Hlen.
    rewrite IH; [done | done | done | lia].
  - rewrite !andb_true_iff in Hok. destruct Hok as [[Hid Hw] Hr].
    rewrite !append_assoc in Hlen |- *.
    destruct fuel as [|fuel]; [lia|].
    rewrite parse_param by done.
    destruct (decide (name ∈ seen)) as [Hs|Hs].
    { by rewrite bool_decide_eq_true_2. }
    rewrite bool_decide_eq_false_2 by done.
    rewrite IH; [done | done | |].
    + destruct Hdup as [Hd|(n & [->|Hin]%elem_of_cons & Hn)].
      * destruct (decide (name ∈ seg_names r)) as [Hin|Hin].
        -- right. exists name. split; [done|by left].
        -- left. intros Hnd. apply Hd. by constructor.
      * done.
      * right. exists n. split; [done|by right].
    + rewrite !length_append in Hlen. rewrite length_append.
      change (String.length "(?P<") with 4 in Hlen. lia.
Qed.

(** X17: a name bracketed twice.  For a pattern of literal text and
    bracketed identifiers in which some name comes twice, [re.compile]
    refuses the second group of that name: [on] raises and no route is
    registered. *)
Theorem on_duplicate_name_raises (routes : list (@route handler))
    (segs : list seg) (m : string) (h : handler) :
  segs_shape segs = true -> ~ NoDup (seg_names segs) ->
  on routes (pattern_text segs) m h = Raise ReError.
Proof.
  intros Hok Hdup. unfold on. rewrite re_sub_shape by done.
  unfold re_compile.
  change ("^" +:+ regex_text segs +:+ "$")
    with (String "^" (regex_text segs +:+ "$")).
  rewrite parse_bol. rewrite parse_segs_dup; [done|done|by left|].
  simpl. lia.
Qed.

Lemma parse_segs_shape (segs : list seg) : forall fuel seen r,
  segs_shape segs = true ->
  String.length (regex_text segs +:+ "$") < fuel ->
  parse fuel seen (regex_text segs +:+ "$") = Some r ->
  r = regex_items segs ++ [IEol].
Proof.
  induction segs as [|[text|name value] rest IH]; intros fuel seen r Hok Hlen;
    cbn [segs_shape regex_text regex_items] in *.
  - destruct fuel as [|[|fuel]]; simpl in Hlen; [lia..|].
    intros H. by injection H as <-.
  - apply andb_true_iff in Hok as [Ht Hr]. rewrite append_assoc in Hlen |- *.
    rewrite parse_lit; [| done | by apply no_quant_regex_shape | done].
    rewrite length_append in Hlen.
    destruct (parse (fuel - String.length text) seen
                (regex_text rest +:+ "$")) as [r'|] eqn:E; [|done].
    intros [= <-]. apply IH in E; [|done|lia]. subst r'.
    by rewrite app_assoc.
  - rewrite !andb_true_iff in Hok. destruct Hok as [[Hid Hw] Hr].
    rewrite !append_assoc in Hlen |- *.
    destruct fuel as [|fuel]; [lia|].
    rewrite parse_param by done.
    destruct (bool_decide (name ∈ seen)); [done|].
    destruct (parse fuel (name :: seen) (regex_text rest +:+ "$"))
      as [r'|] eqn:E; [|done].
    intros [= <-]. apply IH in E; [by subst r'|done|].
    rewrite !length_append in Hlen. rewrite length_append.
    change (String.length "(?P<") with 4 in Hlen. lia.
Qed.

Lemma on_shape (routes routes' : list (@route handler)) (segs : list seg)
    (m : string) (h : handler) :
  segs_shape segs = true ->
  on routes (pattern_text segs) m h = Ok routes' ->
  routes' = routes ++ [(m, IBol :: regex_items segs ++ [IEol], h)].
Proof.
  intros Hok. unfold on. rewrite re_sub_shape by done. unfold re_compile.
  change ("^" +:+ regex_text segs +:+ "$")
    with (String "^" (regex_text segs +:+ "$")).
  rewrite parse_bol.
  destruct (parse _ [] (regex_text segs +:+ "$")) as [r|] eqn:E; [|done].
  apply parse_segs_shape in E; [|done|simpl; lia]. subst r.
  by intros [= <-].
Qed.

Lemma registered_shape (routes : list (@route handler)) :
  registered routes ->
  forall m rx h, (m, rx, h) ∈ routes ->
    exists segs,
      segs_shape segs = true /\ rx = IBol :: regex_items segs ++ [IEol].
Proof.
  induction 1 as [|routes routes' segs m0 h0 Hreg IH Hok Hon];
    intros m rx h Hin.
  - by apply elem_of_nil in Hin.
  - rewrite (on_shape _ _ _ _ _ Hok Hon) in Hin.
    apply elem_of_app in Hin as [Hin|Hin]; [by eapply IH|].
    apply list_elem_of_singleton in Hin. injection Hin as -> -> ->.
    by exists segs.
Qed.

Lemma param_names_lit (text : string) (r : regex) :
  param_names (lit_items text ++ r) = param_names r.
Proof. induction text as [|c text IH]; [done|]. apply IH. Qed.

Lemma param_names_segs (segs : list seg) :
  param_names (regex_items segs ++ [IEol]) = seg_names segs.
Proof.
  induction segs as [|[text|name value] rest IH]; [done|..];
    cbn [regex_items seg_names].
  - by rewrite <- app_assoc, param_names_lit.
  - cbn [app param_names]. by rewrite IH.
Qed.

(** X15: what the route loop passes as keyword arguments.  For routes
    registered by [on] from path patterns of literal text (without
    characters special to [re]) and bracketed identifiers: when the loop
    selects a handler, its route is registered for the method of the
    request, the arguments are named exactly after the bracketed names of
    the route's pattern, and no argument is empty or holds a slash. *)
Theorem kwargs_of_dispatch (routes : list (@route handler))
    (meth pth : string) (h : handler) (kwargs : dict string) :
  registered routes ->
  dispatch routes meth pth = Some (h, kwargs) ->
  exists segs,
    segs_shape segs = true /\
    (meth, IBol :: regex_items segs ++ [IEol], h) ∈ routes /\
    (forall name, name ∈ dict_keys kwargs <-> name ∈ seg_names segs) /\
    (forall name v,
        dict_get name kwargs = Some v ->
        truthy v = true /\ all_chars not_slash v = true).
Proof.
  intros Hreg H. apply dispatch_Some_inv in H as (rx & Hin & Hm).
  destruct (registered_shape routes Hreg meth rx h Hin) as (segs & Hok & ->).
  exists segs. split; [done|]. split; [done|]. unfold re_match in Hm.
  apply match_items_groups in Hm as [Hkeys Hvals]. split.
  - intros name. rewrite <- dict_get_keys, Hkeys.
    cbn [param_names]. rewrite param_names_segs. split; [|by right].
    intros [[? ?]|?]; done.
  - intros name v Hv. by destruct (Hvals name v Hv).
Qed.

End Routes.

End DispatchFacts.

(** ** The further properties on concrete inputs *)

Module MoreExamples.
Import Store Http Wire StoreModel Sample Cases.
Import PlainKeys StoreRefinement StartupFacts SplitFacts ConnectionFacts.
Import DispatchFacts ResponseFacts.
#[local] Existing Instance python_json.
#[local] Existing Instance latin_decoder.

Example reading_read_back : loads (dumps reading) = Some reading.
Proof. vm_compute. reflexivity. Qed.

Example float_texts :
  loads "1.5" = Some (JFloat "1.5") /\ loads "-0.0" = Some (JFloat "-0.0") /\
  loads "15" = Some (JNum 15) /\ loads "01.5" = None /\ loads "1." = None.
Proof. repeat split; vm_compute; reflexivity. Qed.

(** Witness of C2 as amended: a nested value with floats under a plain
    key. *)
Lemma set_get_roundtrip_witness :
  exists db', set db0 "users" "alice" reading = Ok db' /\
              get db' "users" "alice" = Ok reading.
Proof.
  eexists. split; [vm_compute; reflexivity|].
  apply (set_get_roundtrip db0 _ "users" "alice" reading).
  - reflexivity.
  - vm_compute. reflexivity.
  - vm_compute. reflexivity.
Defined.

(** Witness of C5 as amended: [alice] is deleted right after she was
    set. *)
Lemma delete_after_set_witness :
  exists db2,
    delete db_alice "users" "alice" = Ok db2 /\
    get db2 "users" "alice" = Ok JNull /\
    (simple_key "alice" = true ->
     path_exists db2 (key_file db0 "users" "alice") = false).
Proof.
  eexists. split; [vm_compute; reflexivity|].
  apply (delete_after_set db0 db_alice _ "users" "alice" profile);
    vm_compute; reflexivity.
Defined.


Lemma ops_sample_simple : Forall (fun o => simple_op o = true) ops_sample.
Proof. repeat constructor. Qed.

Lemma ops_sample_codec : Forall codec_ok_op ops_sample.
Proof. repeat constructor; vm_compute; reflexivity. Qed.

(** Witness of X1: the calls of [ops_sample] on the empty store. *)
Lemma get_after_run_witness :
  exists db,
    run db0 ops_sample = Ok db /\
    forall t k,
      get db t k = Ok (default JNull (apply_ops ∅ ops_sample !! (t, k))).
Proof.
  eexists. split; [vm_compute; reflexivity|].
  apply (get_after_run db0 _ ops_sample).
  - reflexivity.
  - exact ops_sample_simple.
  - exact ops_sample_codec.
  - vm_compute. reflexivity.
Defined.

(** Witness of X2. *)
Lemma index_synced_after_run_witness :
  exists db,
    run db0 ops_sample = Ok db /\
    (forall t, is_Some (tables db !! t) -> index_synced db t) /\
    (forall t k p,
        index_entry db t k = Some p ->
        p = key_file db t k /\ path_exists db p = true).
Proof.
  apply (index_synced_after_run db0 ops_sample).
  - reflexivity.
  - exact ops_sample_simple.
Defined.

(** Witness of X3. *)
Lemma all_keys_after_run_witness :
  exists db,
    run db0 ops_sample = Ok db /\
    forall t,
      NoDup (all_keys db t) /\
      forall k, k ∈ all_keys db t <->
                is_Some (apply_ops ∅ ops_sample !! (t, k)).
Proof.
  apply (all_keys_after_run db0 ops_sample).
  - reflexivity.
  - exact ops_sample_simple.
Defined.

(** Witness of X5: [bob] is new in [users], [alice] is not. *)
Lemma all_keys_after_set_witness :
  exists db',
    set db_alice "users" "bob" (JNum 1) = Ok db' /\
    all_keys db' "users" =
      (if decide ("bob" ∈ all_keys db_alice "users")
       then all_keys db_alice "users"
       else all_keys db_alice "users" ++ ["bob"]) /\
    forall t', t' <> "users" -> all_keys db' t' = all_keys db_alice t'.
Proof.
  eexists. split; [vm_compute; reflexivity|].
  apply (all_keys_after_set db_alice _ "users" "bob" (JNum 1)).
  vm_compute. reflexivity.
Defined.

(** Witness of X6. *)
Lemma all_keys_after_delete_witness :
  exists db',
    delete db_alice "users" "alice" = Ok db' /\
    all_keys db' "users" =
      filter (fun k' => k' <> "alice") (all_keys db_alice "users") /\
    forall t', t' <> "users" -> all_keys db' t' = all_keys db_alice t'.
Proof.
  eexists. split; [vm_compute; reflexivity|].
  apply (all_keys_after_delete db_alice _ "users" "alice").
  vm_compute. reflexivity.
Defined.

(** Witness of X7. *)
Lemma delete_twice_witness :
  exists db1,
    delete db_alice "users" "alice" = Ok db1 /\
    delete db1 "users" "alice" = Ok db1.
Proof.
  eexists. split; [vm_compute; reflexivity|].
  apply (delete_twice db_alice _ "users" "alice").
  vm_compute. reflexivity.
Defined.

(** Witness of X8: [bob] is set while [alice] is there. *)
Lemma set_keeps_other_keys_witness :
  exists db',
    set db_alice "users" "bob" (JNum 1) = Ok db' /\
    get db' "users" "alice" = get db_alice "users" "alice".
Proof.
  eexists. split; [vm_compute; reflexivity|].
  apply (set_keeps_other_keys db_alice _ "users" "bob" "users" "alice"
           (JNum 1)).
  - vm_compute. reflexivity.
  - reflexivity.
  - reflexivity.
  - reflexivity.
  - reflexivity.
  - discriminate.
  - intros p Hp. vm_compute in Hp. injection Hp as <-. reflexivity.
Defined.


(** Witness of X9: a restart on the files of [db_alice]. *)
Lemma reload_restores_tables_witness :
  new_database (fun _ => true) ["users"] "./db/" (disk db_alice) =
    Loaded db_alice.
Proof.
  apply (reload_restores_tables (fun _ => true) ["users"] db_alice).
  - intros t. split.
    + intros [idx H]. unfold db_alice in H. cbn [tables] in H.
      apply lookup_singleton_Some in H as [<- _].
      split; [by left|done].
    + intros [->%list_elem_of_singleton _]. eexists. reflexivity.
  - intros t idx H. unfold db_alice in H. cbn [tables] in H.
    apply lookup_singleton_Some in H as [<- <-].
    split; vm_compute; reflexivity.
Defined.

(** Witness of X10: a root with the directory [users] and the file
    [notes.txt]. *)
Lemma new_database_creates_indexes_witness :
  exists db,
    new_database root_isdir root_names "./db/" root_files = Loaded db /\
    base_path db = "./db/" /\
    (forall t,
       tables db !! t =
         if decide (t ∈ root_names /\ root_isdir (path_join "./db/" t) = true)
         then Some [] else None) /\
    (forall t, t ∈ root_names -> root_isdir (path_join "./db/" t) = true ->
       disk db !! index_file db t = Some (json_dump (JObj []))) /\
    (forall p,
       (forall t, t ∈ root_names ->
                  root_isdir (path_join "./db/" t) = true ->
                  p <> path_join (path_join "./db/" t) "index.json") ->
       disk db !! p = root_files !! p).
Proof.
  apply (new_database_creates_indexes root_isdir root_names "./db/"
           root_files).
  - apply (bool_decide_unpack _). vm_compute. reflexivity.
  - repeat constructor.
  - intros t [->|[->|Hin]%elem_of_cons]%elem_of_cons Hd.
    + vm_compute. reflexivity.
    + vm_compute in Hd. discriminate Hd.
    + by apply elem_of_nil in Hin.
Defined.

Lemma item_headers_ok : Forall (fun kv => header_ok kv = true) item_headers.
Proof. repeat constructor. Qed.

(** Witness of X11: a request with two headers and a JSON body. *)
Lemma parse_request_roundtrip_witness :
  parse_request (request_text "POST /items HTTP/1.1" item_headers "[1, 2]") =
    ("POST /items HTTP/1.1", set_all item_headers [], "[1, 2]") /\
  parse_request
    (join crlf ("POST /items HTTP/1.1" :: map header_line item_headers)) =
    ("POST /items HTTP/1.1", set_all item_headers [], "") /\
  (NoDup (dict_keys item_headers) -> set_all item_headers [] = item_headers).
Proof.
  apply (parse_request_roundtrip "POST /items HTTP/1.1" item_headers
           "[1, 2]").
  - reflexivity.
  - exact item_headers_ok.
Defined.

(** Witness of X12: [GET /items/42], for which [item_routes] has a
    route. *)
Lemma wellformed_request_raises_witness :
  handle_client item_routes get_item [] = Raised AttributeError [].
Proof.
  apply (wellformed_request_raises item_routes get_item [] "GET" "/items/42"
           "HTTP/1.1" item_headers "").
  - vm_compute. discriminate.
  - vm_compute. reflexivity.
  - reflexivity.
  - reflexivity.
  - reflexivity.
  - exact item_headers_ok.
  - by left.
Defined.

Example get_item_dispatch :
  dispatch item_routes "GET" "/items/42" = Some (show_item, [("id", "42")]).
Proof. vm_compute. reflexivity. Qed.

Example post_items_raises :
  handle_client item_routes post_items [] = Raised AttributeError [].
Proof. vm_compute. reflexivity. Qed.

(** Witness of X13: the body [{oops]. *)
Lemma bad_json_body_raises_witness :
  handle_client item_routes post_broken [] = Raised JSONDecodeError [].
Proof.
  apply (bad_json_body_raises item_routes post_broken [] "POST" "/items"
           "HTTP/1.1" item_headers "{oops").
  - vm_compute. discriminate.
  - vm_compute. reflexivity.
  - reflexivity.
  - reflexivity.
  - reflexivity.
  - exact item_headers_ok.
  - reflexivity.
  - vm_compute. reflexivity.
Defined.

(** Witness of X14: [/items/[id]] is registered after [/items]. *)
Lemma on_keeps_earlier_routes_witness :
  exists rx,
    [("GET", [IBol; IOne (ALit "/"); IOne (ALit "a"); IEol], list_items);
     ("GET", item_regex, show_item)] =
    [("GET", [IBol; IOne (ALit "/"); IOne (ALit "a"); IEol], list_items)] ++
      [("GET", rx, show_item)] /\
    forall meth pth,
      dispatch
        [("GET", [IBol; IOne (ALit "/"); IOne (ALit "a"); IEol], list_items);
         ("GET", item_regex, show_item)] meth pth =
        match dispatch
                [("GET", [IBol; IOne (ALit "/"); IOne (ALit "a"); IEol],
                  list_items)] meth pth with
        | Some r => Some r
        | None =>
            if String.eqb "GET" meth
            then (fun kwargs => (show_item, kwargs)) <$> re_match rx pth
            else None
        end.
Proof.
  apply (on_keeps_earlier_routes
           [("GET", [IBol; IOne (ALit "/"); IOne (ALit "a"); IEol],
             list_items)]
           [("GET", [IBol; IOne (ALit "/"); IOne (ALit "a"); IEol],
             list_items);
            ("GET", item_regex, show_item)]
           "/items/[id]" "GET" show_item).
  vm_compute. reflexivity.
Defined.

Lemma item_routes_registered : registered item_routes.
Proof.
  apply (registered_on [] item_routes [Lit "/items/"; Param "id" ""] "GET"
           show_item); [constructor|reflexivity|].
  vm_compute. reflexivity.
Qed.

(** Witness of X15: the arguments of [show_item] for [/items/42]. *)
Lemma kwargs_of_dispatch_witness :
  exists segs,
    segs_shape segs = true /\
    ("GET", IBol :: regex_items segs ++ [IEol], show_item) ∈ item_routes /\
    (forall name, name ∈ dict_keys [("id", "42")] <-> name ∈ seg_names segs) /\
    (forall name v,
        dict_get name [("id", "42")] = Some v ->
        truthy v = true /\ all_chars not_slash v = true).
Proof.
  apply (kwargs_of_dispatch item_routes "GET" "/items/42" show_item
           [("id", "42")]).
  - exact item_routes_registered.
  - vm_compute. reflexivity.
Defined.

(** Witness of X16: the route [/items]. *)
Lemma literal_route_witness :
  exists rx,
    on ([] : list (@route app_handler)) "/items" "GET" list_items =
      Ok ([] ++ [("GET", rx, list_items)]) /\
    forall pth kwargs,
      re_match rx pth = Some kwargs <->
      kwargs = [] /\ (pth = "/items" \/ pth = "/items" +:+ String LF "").
Proof.
  apply (literal_route [] "/items" "GET" list_items). reflexivity.
Defined.

(** Witness of X17: the pattern [/[a]/[a]]. *)
Lemma on_duplicate_name_raises_witness :
  on ([] : list (@route app_handler))
    (pattern_text [Lit "/"; Param "a" ""; Lit "/"; Param "a" ""])
    "GET" show_item = Raise ReError.
Proof.
  apply (on_duplicate_name_raises []
           [Lit "/"; Param "a" ""; Lit "/"; Param "a" ""] "GET" show_item).
  - reflexivity.
  - simpl. intros [H _]%NoDup_cons. apply H. by left.
Defined.

(** Witness of X20: the file [/srv/index.html]. *)
Lemma sendFile_found_witness :
  written (sendFile site_files [] "/srv/index.html" "text/html").1 =
    written [] ++ encode ("HTTP/1.1 200 OK" +:+ crlf) ++
    encode ("Content-Type: " +:+ "text/html" +:+ crlf +:+
            "Content-Length: " +:+
            str_of_int (Z.of_nat (length (encode "<h1>hi</h1>"))) +:+
            crlf +:+ crlf) ++ encode "<h1>hi</h1>" /\
  closes (sendFile site_files [] "/srv/index.html" "text/html").1 =
    closes [] + 1 /\
  (sendFile site_files [] "/srv/index.html" "text/html").2 = None.
Proof.
  apply (sendFile_found site_files [] "/srv/index.html" "text/html"
           (encode "<h1>hi</h1>")).
  vm_compute. reflexivity.
Defined.

(** Witness of X21: a path that [site_files] does not have. *)
Lemma sendFile_missing_witness :
  sendFile site_files [] "/srv/none.html" "text/html" =
    (send [] "File not found" 404 "text/plain" ++ [Close], None) /\
  closes (sendFile site_files [] "/srv/none.html" "text/html").1 =
    closes [] + 2.
Proof.
  apply (sendFile_missing site_files [] "/srv/none.html" "text/html").
  vm_compute. reflexivity.
Defined.

(** Witness of X23: the directory [/srv]. *)
Lemma sendFile_refused_witness :
  sendFile site_files [] "/srv" "text/html" =
    ([] ++ [Close], Some IsADirectoryError) /\
  written ([] ++ [Close]) = written [] /\
  closes ([] ++ [Close]) = closes [] + 1.
Proof.
  apply (sendFile_refused site_files [] "/srv" "text/html"
           IsADirectoryError).
  - vm_compute. reflexivity.
  - discriminate.
Defined.

End MoreExamples.
